(** * Resource Manager API (backend/server.py): model and properties

    A shallow embedding of the FastAPI service of [backend/server.py]:
    the [Resource] model, the four CRUD handlers over the [db.resources]
    collection and the bulk-import handler with its line parser.

    Python values are modelled as follows.
    - [str] is a list of Unicode code points ([N]); [bytes] is a list of
      [Byte.byte]; [int] is [nat] (counters) or [Z] (calendar fields).
    - A handler is a computation over the [World] (the collection, the
      driver's fault schedule, the uuid and clock sources) that returns a
      value or raises; state survives a raised exception, as in Python.
    - The FastAPI boundary ([serve]) turns a returned value into a 200, an
      [HTTPException] into its status code and anything else into a 500. *)

From Stdlib Require Import Strings.Byte String Ascii List Bool.
From Stdlib Require Import NArith ZArith Arith Lia DecimalString.
Import ListNotations.

(* ===================================================================== *)
(** * Python strings *)
(* ===================================================================== *)

(** A code point, and a [str] as the sequence of its code points. *)
Definition char := N.
Definition str := list char.
Definition bytes := list byte.

Definition str_eq_dec : forall a b : str, {a = b} + {a <> b} :=
  list_eq_dec N.eq_dec.

Definition str_eqb (a b : str) : bool :=
  if str_eq_dec a b then true else false.

(** [not s] on a string: true on the empty string only. *)
Definition is_empty (s : str) : bool :=
  match s with [] => true | _ :: _ => false end.

(** ** bytes.decode('utf-8')

    The strict decoder: shortest forms only, no surrogates, nothing above
    U+10FFFF.  [None] stands for the raised [UnicodeDecodeError]. *)

Definition in_range (lo hi b : N) : bool := (lo <=? b)%N && (b <=? hi)%N.

Definition is_cont (b : N) : bool := in_range 128 191 b.

Definition cont_bits (b : N) : N := (b - 128)%N.

Fixpoint decode_points (bs : list N) : option str :=
  match bs with
  | [] => Some []
  | b0 :: r0 =>
      if (b0 <? 128)%N then
        option_map (cons b0) (decode_points r0)
      else if in_range 194 223 b0 then
        match r0 with
        | b1 :: r1 =>
            if is_cont b1 then
              option_map (cons ((b0 - 192) * 64 + cont_bits b1)%N)
                         (decode_points r1)
            else None
        | _ => None
        end
      else if in_range 224 239 b0 then
        match r0 with
        | b1 :: b2 :: r2 =>
            if in_range (if (b0 =? 224)%N then 160 else 128)
                        (if (b0 =? 237)%N then 159 else 191) b1
               && is_cont b2 then
              option_map
                (cons ((b0 - 224) * 4096 + cont_bits b1 * 64 + cont_bits b2)%N)
                (decode_points r2)
            else None
        | _ => None
        end
      else if in_range 240 244 b0 then
        match r0 with
        | b1 :: b2 :: b3 :: r3 =>
            if in_range (if (b0 =? 240)%N then 144 else 128)
                        (if (b0 =? 244)%N then 143 else 191) b1
               && is_cont b2 && is_cont b3 then
              option_map
                (cons ((b0 - 240) * 262144 + cont_bits b1 * 4096
                       + cont_bits b2 * 64 + cont_bits b3)%N)
                (decode_points r3)
            else None
        | _ => None
        end
      else None
  end.

Definition decode_utf8 (contents : bytes) : option str :=
  decode_points (map Byte.to_N contents).

(** A string literal of the source file: the text whose UTF-8 encoding is
    the given literal. *)
Definition u (lit : string) : str :=
  match decode_utf8 (list_byte_of_string lit) with
  | Some t => t
  | None => []
  end.

(** The bytes of a literal, for file contents. *)
Definition raw (lit : string) : bytes := list_byte_of_string lit.

(** [str(i)] for a non-negative int. *)
Definition str_of_nat (n : nat) : str :=
  u (NilZero.string_of_uint (Nat.to_uint n)).

(** ** str.strip()

    With no argument [strip] removes the characters for which
    [str.isspace] holds: the ASCII ones and the Unicode ones of
    bidirectional class WS, B or S and of category Zs. *)
Definition isspace (c : char) : bool :=
  in_range 9 13 c || in_range 28 32 c
  || (c =? 133)%N || (c =? 160)%N || (c =? 5760)%N
  || in_range 8192 8202 c || (c =? 8232)%N || (c =? 8233)%N
  || (c =? 8239)%N || (c =? 8287)%N || (c =? 12288)%N.

Fixpoint lstrip (s : str) : str :=
  match s with
  | c :: s' => if isspace c then lstrip s' else s
  | [] => []
  end.

Definition rstrip (s : str) : str := rev (lstrip (rev s)).

Definition strip (s : str) : str := rstrip (lstrip s).

(** ** str.split(sep) for a one-character separator

    [split_ne] returns the first field and the remaining ones, so the
    result of [split] is never the empty list. *)
Fixpoint split_ne (sep : char) (s : str) : str * list str :=
  match s with
  | [] => ([], [])
  | c :: s' =>
      let (h, t) := split_ne sep s' in
      if (c =? sep)%N then ([], h :: t) else (c :: h, t)
  end.

Definition split (sep : char) (s : str) : list str :=
  let (h, t) := split_ne sep s in h :: t.

(** ** str.rsplit(sep, maxsplit) for a one-character separator

    The scan runs from the end of the string ([r] is the reversed
    remainder), cutting at most [maxsplit] times; what is left when the
    budget is spent becomes the first field whole. *)
Fixpoint rsplit_scan (sep : char) (maxsplit : nat) (r : str)
         (cur : str) (out : list str) : list str :=
  match r with
  | [] => cur :: out
  | c :: r' =>
      match maxsplit with
      | O => (rev r ++ cur) :: out
      | S n =>
          if (c =? sep)%N then rsplit_scan sep n r' [] (cur :: out)
          else rsplit_scan sep maxsplit r' (c :: cur) out
      end
  end.

Definition rsplit (sep : char) (maxsplit : nat) (s : str) : list str :=
  rsplit_scan sep maxsplit (rev s) [] [].

Definition colon : char := 58%N.
Definition newline : char := 10%N.

(* ===================================================================== *)
(** * datetime *)
(* ===================================================================== *)

(** A [datetime] with its [tzinfo]: [None] for a naive value, [Some m] for
    a fixed offset of [m] minutes east of UTC ([Some 0] is
    [timezone.utc]).  Offsets are whole minutes, as are all the service
    writes. *)
Record datetime := mkDatetime {
  year : Z; month : Z; day : Z;
  hour : Z; minute : Z; second : Z; microsecond : Z;
  tzinfo : option Z
}.

Definition is_leap (y : Z) : bool :=
  ((y mod 4 =? 0) && negb (y mod 100 =? 0) || (y mod 400 =? 0))%Z.

Definition days_in_month (y m : Z) : Z :=
  if (m =? 2)%Z then (if is_leap y then 29 else 28)%Z
  else if ((m =? 4) || (m =? 6) || (m =? 9) || (m =? 11))%Z then 30%Z
  else 31%Z.

Definition between (lo hi x : Z) : bool := ((lo <=? x) && (x <=? hi))%Z.

(** The range checks of the [datetime] and [timezone] constructors. *)
Definition valid_datetime (d : datetime) : bool :=
  between 1 9999 (year d) && between 1 12 (month d)
  && between 1 (days_in_month (year d) (month d)) (day d)
  && between 0 23 (hour d) && between 0 59 (minute d)
  && between 0 59 (second d) && between 0 999999 (microsecond d)
  && match tzinfo d with
     | None => true
     | Some off => between (-1439) 1439 off
     end.

(** ** Formatting: [datetime.isoformat()] *)

Definition digit (k : Z) : char := Z.to_N (48 + k mod 10).

(** ["%0wd" % n] for [0 <= n < 10^w], the only values a valid [datetime]
    prints. *)
Fixpoint zfill (w : nat) (n : Z) : str :=
  match w with
  | O => []
  | S w' => zfill w' (n / 10) ++ [digit n]
  end.

Definition dash : char := 45%N.
Definition plus : char := 43%N.
Definition dot : char := 46%N.
Definition letter_T : char := 84%N.

Definition format_offset (tz : option Z) : str :=
  match tz with
  | None => []
  | Some off =>
      let sign := if (off <? 0)%Z then dash else plus in
      let a := Z.abs off in
      sign :: zfill 2 (a / 60) ++ [colon] ++ zfill 2 (a mod 60)
  end.

Definition isoformat (d : datetime) : str :=
  zfill 4 (year d) ++ [dash] ++ zfill 2 (month d) ++ [dash]
  ++ zfill 2 (day d) ++ [letter_T]
  ++ zfill 2 (hour d) ++ [colon] ++ zfill 2 (minute d) ++ [colon]
  ++ zfill 2 (second d)
  ++ (if (microsecond d =? 0)%Z then [] else dot :: zfill 6 (microsecond d))
  ++ format_offset (tzinfo d).

(** ** Parsing: [datetime.fromisoformat()]

    The parser, on the grammar of the strings [isoformat] prints: a
    10-character date alone, or the date, any one separator and a time
    [HH[:MM[:SS[.fff[fff]]]]] with an optional [+HH:MM] or [-HH:MM]
    offset.  Numeric fields are ASCII decimal digits.  [None] stands for
    the raised [ValueError].

    The library reads further ISO 8601 forms, depending on its version
    (a [Z] suffix, offsets with seconds, week dates, compact fields, any
    number of fraction digits); they are refused here, and the service
    writes none of them.  The theorems about stored documents rely only
    on what the model and the library share: a string [isoformat]
    printed reads back as the value printed, and a string that does not
    start with a digit is refused. *)

Definition digit_val (c : char) : option Z :=
  if in_range 48 57 c then Some (Z.of_N c - 48)%Z else None.

Fixpoint int_digits (acc : Z) (s : str) : option Z :=
  match s with
  | [] => Some acc
  | c :: s' =>
      match digit_val c with
      | Some v => int_digits (10 * acc + v) s'
      | None => None
      end
  end.

(** [int(s)] on a non-empty run of digits. *)
Definition int_of (s : str) : option Z :=
  match s with
  | [] => None
  | _ => int_digits 0 s
  end.

Fixpoint find_char (c : char) (s : str) : option nat :=
  match s with
  | [] => None
  | x :: s' => if (x =? c)%N then Some O else option_map S (find_char c s')
  end.

Definition parse_isoformat_date (dstr : str) : option (Z * Z * Z) :=
  if negb (length dstr =? 10) then None
  else if negb (nth 4 dstr 0 =? dash)%N then None
  else if negb (nth 7 dstr 0 =? dash)%N then None
  else
    match int_of (firstn 4 dstr),
          int_of (firstn 2 (skipn 5 dstr)),
          int_of (firstn 2 (skipn 8 dstr)) with
    | Some y, Some m, Some d => Some (y, m, d)
    | _, _, _ => None
    end.

(** [HH[:MM[:SS[.fff[fff]]]]] *)
Definition parse_fraction (frac : str) : option Z :=
  match length frac with
  | 3 => option_map (Z.mul 1000) (int_of frac)
  | 6 => int_of frac
  | _ => None
  end.

Definition parse_hh_mm_ss_ff (tstr : str) : option (Z * Z * Z * Z) :=
  match int_of (firstn 2 tstr), skipn 2 tstr with
  | None, _ => None
  | Some hh, [] => if length tstr <? 2 then None else Some (hh, 0, 0, 0)%Z
  | Some hh, c1 :: r1 =>
      if negb (c1 =? colon)%N then None
      else
        match int_of (firstn 2 r1), skipn 2 r1 with
        | None, _ => None
        | Some mm, [] =>
            if length r1 <? 2 then None else Some (hh, mm, 0, 0)%Z
        | Some mm, c2 :: r2 =>
            if negb (c2 =? colon)%N then None
            else
              match int_of (firstn 2 r2), skipn 2 r2 with
              | None, _ => None
              | Some ss, [] =>
                  if length r2 <? 2 then None else Some (hh, mm, ss, 0)%Z
              | Some ss, c3 :: frac =>
                  if negb (c3 =? dot)%N then None
                  else
                    match parse_fraction frac with
                    | Some us => Some (hh, mm, ss, us)
                    | None => None
                    end
              end
        end
  end.

(** The offset: [HH:MM] only, whole minutes; all-zero is [timezone.utc]. *)
Definition parse_offset (sign : char) (tzstr : str) : option Z :=
  if negb (length tzstr =? 5) then None
  else
    match parse_hh_mm_ss_ff tzstr with
    | Some (hh, mm, _, _) =>
        let off := (hh * 60 + mm)%Z in
        Some (if (sign =? dash)%N then (- off)%Z else off)
    | None => None
    end.

(** The time part and its offset: the offset starts at the first ['-'],
    or at the first ['+'] when there is no ['-']. *)
Definition parse_isoformat_time (tstr : str)
  : option (Z * Z * Z * Z * option Z) :=
  if length tstr <? 2 then None
  else
    let tz_pos :=
      match find_char dash tstr with
      | Some i => Some i
      | None => find_char plus tstr
      end in
    match tz_pos with
    | None =>
        option_map (fun t => (t, None)) (parse_hh_mm_ss_ff tstr)
    | Some i =>
        match parse_hh_mm_ss_ff (firstn i tstr),
              parse_offset (nth i tstr 0%N) (skipn (S i) tstr) with
        | Some t, Some off => Some (t, Some off)
        | _, _ => None
        end
    end.

Definition fromisoformat (date_string : str) : option datetime :=
  let dstr := firstn 10 date_string in
  let tstr := skipn 11 date_string in
  match parse_isoformat_date dstr with
  | None => None
  | Some (y, m, d) =>
      let time_components :=
        if length date_string <=? 10 then Some (0, 0, 0, 0, None)%Z
        else parse_isoformat_time tstr in
      match time_components with
      | None => None
      | Some (hh, mm, ss, us, tz) =>
          let dt := mkDatetime y m d hh mm ss us tz in
          if valid_datetime dt then Some dt else None
      end
  end.

(* ===================================================================== *)
(** * The data model *)
(* ===================================================================== *)

(** [class Resource(BaseModel)] *)
Module Resource.
Record t := mk {
  id : str;
  url : str;
  login : str;
  password : str;
  is_active : bool;
  created_at : datetime
}.
End Resource.

(** [class ResourceCreate(BaseModel)]: three plain [str] fields. *)
Module ResourceCreate.
Record t := mk { url : str; login : str; password : str }.
End ResourceCreate.

(** [class ResourceUpdate(BaseModel)] *)
Module ResourceUpdate.
Record t := mk { is_active : bool }.
End ResourceUpdate.

(** A document of [db.resources]: the dict the handlers build and read.
    [_id] is the key the store adds on insert ([None] while absent);
    [created_at] holds either a string or a datetime, which the handlers
    tell apart with [isinstance]. *)
Inductive stored_time :=
| AsStr (s : str)
| AsDatetime (d : datetime).

Module Doc.
Record t := mk {
  _id : option N;
  id : str;
  url : str;
  login : str;
  password : str;
  is_active : bool;
  created_at : stored_time
}.

Definition set__id (v : option N) (d : t) : t :=
  mk v (id d) (url d) (login d) (password d) (is_active d) (created_at d).

Definition set_is_active (v : bool) (d : t) : t :=
  mk (_id d) (id d) (url d) (login d) (password d) v (created_at d).

Definition set_created_at (v : stored_time) (d : t) : t :=
  mk (_id d) (id d) (url d) (login d) (password d) (is_active d) v.
End Doc.

(* ===================================================================== *)
(** * The world and the handler monad *)
(* ===================================================================== *)

(** The exceptions the handlers meet.  The [detail] of an [HTTPException]
    built by an f-string ending in [str(e)] is kept as the literal part
    together with [e] itself as [cause]. *)
#[warnings="-register-all"] Inductive Exception :=
| UnicodeDecodeError
| ValueError
| PyMongoError
| HTTPException (status_code : Z) (detail : str) (cause : option Exception).

(** What a handler runs against.
    - [resources]: the collection [db.resources], in insertion order;
    - [next_oid]: the store's source of [_id] values;
    - [outages]: the fault schedule of the driver, one entry per call still
      to come, [true] when that call raises; past its end every call
      answers;
    - [uuid4], [utcnow], [made]: the values [str(uuid.uuid4())] and
      [datetime.now(timezone.utc)] return at the [made]-th construction of
      a [Resource]. *)
Record World := mkWorld {
  resources : list Doc.t;
  next_oid : N;
  outages : list bool;
  uuid4 : nat -> str;
  utcnow : nat -> datetime;
  made : nat
}.

Definition set_resources (v : list Doc.t) (w : World) : World :=
  mkWorld v (next_oid w) (outages w) (uuid4 w) (utcnow w) (made w).

Definition set_next_oid (v : N) (w : World) : World :=
  mkWorld (resources w) v (outages w) (uuid4 w) (utcnow w) (made w).

Definition set_outages (v : list bool) (w : World) : World :=
  mkWorld (resources w) (next_oid w) v (uuid4 w) (utcnow w) (made w).

Definition set_made (v : nat) (w : World) : World :=
  mkWorld (resources w) (next_oid w) (outages w) (uuid4 w) (utcnow w) v.

Inductive Result (A : Type) :=
| Ok (a : A)
| Raise (e : Exception).

Arguments Ok {A} a.
Arguments Raise {A} e.

Definition M (A : Type) := World -> Result A * World.

Definition ret {A} (a : A) : M A := fun w => (Ok a, w).

Definition raise {A} (e : Exception) : M A := fun w => (Raise e, w).

Definition bind {A B} (m : M A) (k : A -> M B) : M B :=
  fun w =>
    match m w with
    | (Ok a, w') => k a w'
    | (Raise e, w') => (Raise e, w')
    end.

(** [try: body  except Exception as e: handler(e)] *)
Definition try_except {A} (body : M A) (handler : Exception -> M A) : M A :=
  fun w =>
    match body w with
    | (Ok a, w') => (Ok a, w')
    | (Raise e, w') => handler e w'
    end.

Declare Scope py_scope.
Delimit Scope py_scope with py.
Notation "x <- m ;; k" := (bind m (fun x => k))
  (at level 61, m at next level, right associativity) : py_scope.
Notation "m ;;; k" := (bind m (fun _ => k))
  (at level 61, right associativity) : py_scope.
Local Open Scope py_scope.

(** ** The FastAPI boundary *)

Inductive Response (A : Type) :=
| Reply (body : A)
| Failure (status_code : Z) (detail : str) (cause : option Exception).

Arguments Reply {A} body.
Arguments Failure {A} status_code detail cause.


(** A returned value is a 200; an [HTTPException] is answered with its own
    status; any other exception leaves the handler and is a 500. *)
Definition serve {A} (handler : M A) (w : World) : Response A * World :=
  match handler w with
  | (Ok a, w') => (Reply a, w')
  | (Raise (HTTPException s d c), w') => (Failure s d c, w')
  | (Raise e, w') => (Failure 500 (u "Internal Server Error") (Some e), w')
  end.

(** ** The collection [db.resources] *)

(** One round trip to the store: it consumes the next entry of the fault
    schedule and raises when that entry says so. *)
Definition driver_call : M unit :=
  fun w =>
    match outages w with
    | [] => (Ok tt, w)
    | false :: rest => (Ok tt, set_outages rest w)
    | true :: rest => (Raise PyMongoError, set_outages rest w)
    end.

(** [insert_one(doc)]: the store gives the document an [_id] when it has
    none and appends it. *)
Definition insert_one (doc : Doc.t) : M unit :=
  driver_call ;;;
  fun w =>
    match Doc._id doc with
    | Some _ => (Ok tt, set_resources (resources w ++ [doc]) w)
    | None =>
        (Ok tt,
         set_next_oid (N.succ (next_oid w))
           (set_resources
              (resources w ++ [Doc.set__id (Some (next_oid w)) doc]) w))
    end.

(** [find({}, {"_id": 0}).to_list(n)] *)
Definition find_all (n : nat) : M (list Doc.t) :=
  driver_call ;;;
  fun w => (Ok (map (Doc.set__id None) (firstn n (resources w))), w).

(** The first document with the given [id], updated by [f]; [None] when no
    document matches. *)
Fixpoint update_first (rid : str) (f : Doc.t -> Doc.t) (ds : list Doc.t)
  : option (Doc.t * list Doc.t) :=
  match ds with
  | [] => None
  | d :: ds' =>
      if str_eqb (Doc.id d) rid then Some (f d, f d :: ds')
      else
        match update_first rid f ds' with
        | Some (r, ds'') => Some (r, d :: ds'')
        | None => None
        end
  end.

(** [find_one_and_update({"id": rid}, {"$set": {"is_active": v}},
    return_document=True)]: the document as it is after the update. *)
Definition find_one_and_update (rid : str) (v : bool) : M (option Doc.t) :=
  driver_call ;;;
  fun w =>
    match update_first rid (Doc.set_is_active v) (resources w) with
    | Some (r, ds) => (Ok (Some r), set_resources ds w)
    | None => (Ok None, w)
    end.

Fixpoint remove_first (rid : str) (ds : list Doc.t) : option (list Doc.t) :=
  match ds with
  | [] => None
  | d :: ds' =>
      if str_eqb (Doc.id d) rid then Some ds'
      else option_map (cons d) (remove_first rid ds')
  end.

(** [delete_one({"id": rid})], returning [deleted_count]. *)
Definition delete_one (rid : str) : M nat :=
  driver_call ;;;
  fun w =>
    match remove_first rid (resources w) with
    | Some ds => (Ok 1, set_resources ds w)
    | None => (Ok 0, w)
    end.

(* ===================================================================== *)
(** * The handlers *)
(* ===================================================================== *)

(** [Resource(url=..., login=..., password=...)]: [id] and [created_at]
    come from their default factories, [is_active] defaults to [True]. *)
Definition Resource_new (url login password : str) : M Resource.t :=
  fun w =>
    (Ok (Resource.mk (uuid4 w (made w)) url login password true
                     (utcnow w (made w))),
     set_made (S (made w)) w).

(** [resource_obj.model_dump()] *)
Definition model_dump (r : Resource.t) : Doc.t :=
  Doc.mk None (Resource.id r) (Resource.url r) (Resource.login r)
         (Resource.password r) (Resource.is_active r)
         (AsDatetime (Resource.created_at r)).

(** [doc['created_at'] = doc['created_at'].isoformat()] *)
Definition created_at_to_iso (doc : Doc.t) : Doc.t :=
  match Doc.created_at doc with
  | AsDatetime d => Doc.set_created_at (AsStr (isoformat d)) doc
  | AsStr _ => doc
  end.

(** [if isinstance(doc['created_at'], str):
       doc['created_at'] = datetime.fromisoformat(doc['created_at'])] *)
Definition created_at_from_iso (doc : Doc.t) : M Doc.t :=
  match Doc.created_at doc with
  | AsStr s =>
      match fromisoformat s with
      | Some d => ret (Doc.set_created_at (AsDatetime d) doc)
      | None => raise ValueError
      end
  | AsDatetime _ => ret doc
  end.

(** [Resource] built from the keys of [doc], with [extra="ignore"]
    dropping [_id].  The handlers parse a [created_at] held as a string
    before they build the model; one that reaches the model unparsed is
    parsed here. *)
Definition Resource_of_doc (doc : Doc.t) : M Resource.t :=
  match Doc.created_at doc with
  | AsDatetime d =>
      ret (Resource.mk (Doc.id doc) (Doc.url doc) (Doc.login doc)
                       (Doc.password doc) (Doc.is_active doc) d)
  | AsStr s =>
      match fromisoformat s with
      | Some d =>
          ret (Resource.mk (Doc.id doc) (Doc.url doc) (Doc.login doc)
                           (Doc.password doc) (Doc.is_active doc) d)
      | None => raise ValueError
      end
  end.

Fixpoint for_each {A B} (f : A -> M B) (xs : list A) : M (list B) :=
  match xs with
  | [] => ret []
  | x :: xs' => y <- f x ;; ys <- for_each f xs' ;; ret (y :: ys)
  end.

(** [POST /resources] *)
Definition create_resource (input : ResourceCreate.t) : M Resource.t :=
  resource_obj <- Resource_new (ResourceCreate.url input)
                               (ResourceCreate.login input)
                               (ResourceCreate.password input) ;;
  let doc := created_at_to_iso (model_dump resource_obj) in
  insert_one doc ;;;
  ret resource_obj.

(** [GET /resources] *)
Definition get_resources : M (list Resource.t) :=
  found <- find_all 1000 ;;
  parsed <- for_each created_at_from_iso found ;;
  for_each Resource_of_doc parsed.

Definition not_found : Exception :=
  HTTPException 404 (u "Ресурс не найден") None.

(** [PUT /resources/{resource_id}] *)
Definition update_resource (resource_id : str) (update : ResourceUpdate.t)
  : M Resource.t :=
  result <- find_one_and_update resource_id
                                (ResourceUpdate.is_active update) ;;
  match result with
  | None => raise not_found
  | Some result =>
      let result := Doc.set__id None result in
      result <- created_at_from_iso result ;;
      Resource_of_doc result
  end.

(** [DELETE /resources/{resource_id}] *)
Definition delete_resource (resource_id : str) : M str :=
  deleted_count <- delete_one resource_id ;;
  if deleted_count =? 0 then raise not_found
  else ret (u "Ресурс удалён").

(** ** [POST /resources/import] *)

Record ImportReport := mkReport {
  message : str;
  imported : nat;
  errors : list str
}.

Definition invalid_format (i : nat) : str :=
  u "Строка " ++ str_of_nat i
  ++ u ": неверный формат (ожидается url:login:pass)".

Definition empty_fields (i : nat) : str :=
  u "Строка " ++ str_of_nat i ++ u ": пустые поля".

(** The body of the loop, for line [i]: [acc] is [(imported, errors)]
    before the line, the result is the pair after it. *)
Definition import_line (i : nat) (line : str) (acc : nat * list str)
  : M (nat * list str) :=
  let (imported, errors) := acc in
  let line := strip line in
  if is_empty line then ret (imported, errors)
  else
    let parts := rsplit colon 2 line in
    if negb (length parts =? 3) then
      ret (imported, errors ++ [invalid_format i])
    else
      match map strip parts with
      | [url; login; password] =>
          if is_empty url || is_empty login || is_empty password then
            ret (imported, errors ++ [empty_fields i])
          else
            resource_obj <- Resource_new url login password ;;
            let doc := created_at_to_iso (model_dump resource_obj) in
            insert_one doc ;;;
            ret (imported + 1, errors)
      | _ => raise ValueError
      end.

(** [for i, line in enumerate(lines, 1): ...] *)
Fixpoint import_lines (i : nat) (lines : list str) (acc : nat * list str)
  : M (nat * list str) :=
  match lines with
  | [] => ret acc
  | line :: rest =>
      acc' <- import_line i line acc ;;
      import_lines (S i) rest acc'
  end.

(** The handler, given the bytes [await file.read()] returned. *)
Definition import_resources (contents : bytes) : M ImportReport :=
  try_except
    (match decode_utf8 contents with
     | None => raise UnicodeDecodeError
     | Some text =>
         let lines := split newline (strip text) in
         acc <- import_lines 1 lines (0, []) ;;
         let (imported, errors) := acc in
         ret (mkReport (u "Импортировано ресурсов: " ++ str_of_nat imported)
                       imported errors)
     end)
    (fun e => raise (HTTPException 400 (u "Ошибка импорта: ") (Some e))).

(** ** Sample worlds *)

Definition sample_uuid (n : nat) : str := u "id-" ++ str_of_nat n.

Definition sample_clock (n : nat) : datetime :=
  mkDatetime 2024 1 1 12 0 (Z.of_nat (n mod 60)) 250 (Some 0%Z).

(** An empty collection behind a store that always answers. *)
Definition empty_world : World :=
  mkWorld [] 1 [] sample_uuid sample_clock 0.

(** The same with a store that fails its next call. *)
Definition failing_world : World :=
  mkWorld [] 1 [true] sample_uuid sample_clock 0.

(** The store answers every call. *)
Definition healthy (w : World) : Prop := outages w = [].

Definition LF : byte := "010"%byte.

(** The three-line file of the import scenario. *)
Definition scenario_file : bytes :=
  raw "http://a.com:user1:pass1" ++ [LF] ++ raw "badline" ++ [LF]
  ++ raw "http://b.com:user2:pass2".

(** ** Vocabulary of the statements *)

(** Occurrences of a character in a string. *)
Definition count (c : char) (s : str) : nat := count_occ N.eq_dec s c.

(** [sep.join(parts)] for a non-empty list of parts. *)
Fixpoint join (sep : char) (parts : list str) : str :=
  match parts with
  | [] => []
  | [p] => p
  | p :: rest => p ++ [sep] ++ join sep rest
  end.

(** A line that is not empty after trimming. *)
Definition nonblank (line : str) : bool := negb (is_empty (strip line)).

(** The number of lines that are not empty after trimming. *)
Definition count_nonblank (lines : list str) : nat :=
  length (filter nonblank lines).

(** [enumerate(lines, i)] *)
Fixpoint enumerate (i : nat) (lines : list str) : list (nat * str) :=
  match lines with
  | [] => []
  | line :: rest => (i, line) :: enumerate (S i) rest
  end.

(** The loop body run over lines that carry their numbers. *)
Fixpoint import_numbered (lines : list (nat * str)) (acc : nat * list str)
  : M (nat * list str) :=
  match lines with
  | [] => ret acc
  | (i, line) :: rest =>
      acc' <- import_line i line acc ;;
      import_numbered rest acc'
  end.

(** The timestamp a stored document reads back as, when it does. *)
Definition stored_timestamp (d : Doc.t) : option datetime :=
  match Doc.created_at d with
  | AsStr s => fromisoformat s
  | AsDatetime t => Some t
  end.

(** A stored document whose [created_at] can be read back. *)
Definition readable (d : Doc.t) : Prop := stored_timestamp d <> None.

(** The first stored document with the given [id]. *)
Definition lookup (rid : str) (ds : list Doc.t) : option Doc.t :=
  find (fun d => str_eqb (Doc.id d) rid) ds.

(** The document an accepted import line or a create request stores. *)
Definition stored_doc (w : World) (url login password : str) : Doc.t :=
  Doc.mk (Some (next_oid w)) (uuid4 w (made w)) url login password true
         (AsStr (isoformat (utcnow w (made w)))).

(** The world after such a document has been stored. *)
Definition after_insert (w : World) (url login password : str) : World :=
  set_next_oid (N.succ (next_oid w))
    (set_resources (resources w ++ [stored_doc w url login password])
       (set_made (S (made w)) w)).

(** What a line can do: nothing when blank; otherwise one error message,
    or one stored document and one more import, or the driver's error. *)
Inductive line_outcome (i : nat) (line : str) (n : nat) (e : list str)
          (w : World) : Result (nat * list str) * World -> Prop :=
| line_skipped :
    nonblank line = false ->
    line_outcome i line n e w (Ok (n, e), w)
| line_rejected (msg : str) :
    nonblank line = true ->
    msg = invalid_format i \/ msg = empty_fields i ->
    line_outcome i line n e w (Ok (n, e ++ [msg]), w)
| line_stored (w' : World) :
    nonblank line = true ->
    length (resources w') = S (length (resources w)) ->
    (healthy w -> healthy w') ->
    line_outcome i line n e w (Ok (n + 1, e), w')
| line_store_failed (w' : World) :
    nonblank line = true ->
    ~ healthy w ->
    resources w' = resources w ->
    line_outcome i line n e w (Raise PyMongoError, w').

Definition import_detail : str := u "Ошибка импорта: ".

(** A world with two stored documents, the second inactive. *)
Definition two_docs_world : World :=
  mkWorld
    [Doc.mk (Some 1%N) (u "id-0") (u "http://a.com") (u "user1") (u "pass1")
            true (AsStr (u "2024-01-01T12:00:00.000250+00:00"));
     Doc.mk (Some 2%N) (u "id-1") (u "http://b.com") (u "user2") (u "pass2")
            false (AsStr (u "2024-01-01T12:00:01+00:00"))]
    3 [] sample_uuid sample_clock 2.

(** ** Vocabulary of the further properties *)

(** The next call to the store raises. *)
Definition call_fails (w : World) : bool :=
  match outages w with
  | true :: _ => true
  | _ => false
  end.

(** The world once the next call to the store has been made. *)
Definition after_call (w : World) : World :=
  match outages w with
  | [] => w
  | _ :: rest => set_outages rest w
  end.

(** The answer to an exception no handler caught. *)
Definition server_error {A} (e : Exception) : Response A :=
  Failure 500 (u "Internal Server Error") (Some e).

(** The [id]s of the stored documents, in order. *)
Definition ids (w : World) : list str := map Doc.id (resources w).

(** The resource a handler builds from a readable document. *)
Definition shown (d : Doc.t) (t : datetime) : Resource.t :=
  Resource.mk (Doc.id d) (Doc.url d) (Doc.login d) (Doc.password d)
              (Doc.is_active d) t.

(** All of the results, or nothing when one is missing. *)
Fixpoint traverse {A B} (g : A -> option B) (xs : list A)
  : option (list B) :=
  match xs with
  | [] => Some []
  | x :: xs' =>
      match g x, traverse g xs' with
      | Some y, Some ys => Some (y :: ys)
      | _, _ => None
      end
  end.

(** The resource a stored document is listed as, when its [created_at]
    reads back. *)
Definition read (d : Doc.t) : option Resource.t :=
  option_map (shown d) (stored_timestamp d).

(** What [created_at_from_iso] and [Resource_of_doc] compute, apart from
    raising. *)
Definition parse_doc (d : Doc.t) : option Doc.t :=
  match Doc.created_at d with
  | AsStr s =>
      option_map (fun t => Doc.set_created_at (AsDatetime t) d)
                 (fromisoformat s)
  | AsDatetime _ => Some d
  end.

(** What the loop body decides about a line, apart from the store. *)
Inductive verdict :=
| Blank
| Invalid
| EmptyFields
| Accepted (url login password : str).

Definition line_verdict (line : str) : verdict :=
  let line := strip line in
  if is_empty line then Blank
  else
    match rsplit colon 2 line with
    | [p1; p2; p3] =>
        if is_empty (strip p1) || is_empty (strip p2) || is_empty (strip p3)
        then EmptyFields
        else Accepted (strip p1) (strip p2) (strip p3)
    | _ => Invalid
    end.

(** The error messages of the lines, numbered from [i], in line order. *)
Fixpoint errors_of (i : nat) (lines : list str) : list str :=
  match lines with
  | [] => []
  | line :: rest =>
      match line_verdict line with
      | Invalid => invalid_format i :: errors_of (S i) rest
      | EmptyFields => empty_fields i :: errors_of (S i) rest
      | _ => errors_of (S i) rest
      end
  end.

(** The fields of the accepted lines, in line order. *)
Fixpoint accepted_of (lines : list str) : list (str * str * str) :=
  match lines with
  | [] => []
  | line :: rest =>
      match line_verdict line with
      | Accepted url login password =>
          (url, login, password) :: accepted_of rest
      | _ => accepted_of rest
      end
  end.

(** The world after the documents of these fields have been stored, one
    after the other. *)
Fixpoint insert_all (w : World) (fields : list (str * str * str)) : World :=
  match fields with
  | [] => w
  | (url, login, password) :: rest =>
      insert_all (after_insert w url login password) rest
  end.

(** The world after a [Resource] was built and the store failed the
    insert. *)
Definition after_failed_insert (w : World) : World :=
  after_call (set_made (S (made w)) w).

(** The world after a [Resource] was built and stored, whatever the fault
    schedule holds next. *)
Definition after_stored (w : World) (url login password : str) : World :=
  after_call (after_insert w url login password).

(** The number of calls the store answers before the first one it
    fails. *)
Fixpoint leading_ok (faults : list bool) : nat :=
  match faults with
  | false :: rest => S (leading_ok rest)
  | _ => 0
  end.

(** A document as the import stores it: active, its three fields
    non-empty and trimmed, no colon in login or password, its
    [created_at] a string. *)
Definition imported_doc (d : Doc.t) : Prop :=
  Doc.is_active d = true
  /\ Doc.url d <> [] /\ Doc.login d <> [] /\ Doc.password d <> []
  /\ strip (Doc.url d) = Doc.url d
  /\ strip (Doc.login d) = Doc.login d
  /\ strip (Doc.password d) = Doc.password d
  /\ ~ In colon (Doc.login d) /\ ~ In colon (Doc.password d)
  /\ exists s, Doc.created_at d = AsStr s.

(** The number of newlines in the whitespace a text starts with: the
    number of blank lines before its first non-blank one. *)
Fixpoint leading_newlines (s : str) : nat :=
  match s with
  | [] => 0
  | c :: s' =>
      if isspace c
      then (if (c =? newline)%N then 1 else 0) + leading_newlines s'
      else 0
  end.

(** The non-blank lines, trimmed, each with its number counted from
    [i]: all the loop body looks at. *)
Definition numbered_trimmed (i : nat) (lines : list str)
  : list (nat * str) :=
  map (fun p => (fst p, strip (snd p)))
      (filter (fun p => nonblank (snd p)) (enumerate i lines)).

(** The uuid source never gives the same value twice. *)
Definition uuid_injective (w : World) : Prop :=
  forall a b : nat, uuid4 w a = uuid4 w b -> a = b.

(** No two stored documents share an [id], and every stored [id] is one
    the uuid source has already given out. *)
Definition ids_invariant (w : World) : Prop :=
  uuid_injective w
  /\ NoDup (ids w)
  /\ forall rid, In rid (ids w) -> exists k, k < made w /\ rid = uuid4 w k.

(** A world whose uuid source is the counter itself, holding the one
    document built so far. *)
Definition counter_world : World :=
  mkWorld
    [Doc.mk (Some 1%N) [0%N] (u "http://a.com") (u "user1") (u "pass1")
            true (AsStr (u "2024-01-01T12:00:00.000250+00:00"))]
    2 [false; true] (fun n => [N.of_nat n]) sample_clock 1.

(** ** The CORS configuration *)

Definition comma : char := 44%N.

(** [os.environ.get('CORS_ORIGINS', '*').split(',')], given the value of
    the variable ([None] when it is not set). *)
Definition allow_origins (cors_origins : option str) : list str :=
  split comma
        (match cors_origins with
         | Some v => v
         | None => u "*"
         end).

(** ** Documents the service wrote *)

(** The document holds the timestamp [t] the way the handlers write it:
    the ISO string of a valid [datetime]. *)
Definition written_at (d : Doc.t) (t : datetime) : Prop :=
  valid_datetime t = true /\ Doc.created_at d = AsStr (isoformat t).

(** Every stored document was written by the handlers. *)
Definition service_store (w : World) : Prop :=
  Forall (fun d => exists t, written_at d t) (resources w).

(** [datetime.now(timezone.utc)] returns a valid [datetime]. *)
Definition clock_valid (w : World) : Prop :=
  forall n : nat, valid_datetime (utcnow w n) = true.

(** The worlds the service can be in: it starts on an empty collection,
    with any fault schedule and any uuid source, and answers requests. *)
Inductive reachable : World -> Prop :=
| reach_start (w : World) :
    resources w = [] -> clock_valid w -> reachable w
| reach_create (w : World) (input : ResourceCreate.t) :
    reachable w -> reachable (snd (serve (create_resource input) w))
| reach_list (w : World) :
    reachable w -> reachable (snd (serve get_resources w))
| reach_update (w : World) (rid : str) (upd : ResourceUpdate.t) :
    reachable w -> reachable (snd (serve (update_resource rid upd) w))
| reach_delete (w : World) (rid : str) :
    reachable w -> reachable (snd (serve (delete_resource rid) w))
| reach_import (w : World) (contents : bytes) :
    reachable w -> reachable (snd (serve (import_resources contents) w)).

(** The string starts with an ASCII digit, as every date does. *)
Definition starts_with_digit (s : str) : bool :=
  match s with
  | [] => false
  | c :: _ => in_range 48 57 c
  end.

(** A world whose documents the handlers wrote and whose clock is
    valid. *)
Definition service_world (w : World) : Prop :=
  service_store w /\ clock_valid w.

(* ===================================================================== *)
(** * Properties *)
(* ===================================================================== *)

(** ** Worked examples *)

Example split_three :
  split newline (u "a" ++ [newline] ++ u "b" ++ [newline])
  = [u "a"; u "b"; u ""].
Proof. reflexivity. Qed.

Example rsplit_url :
  rsplit colon 2 (u "http://a.com:user1:pass1")
  = [u "http://a.com"; u "user1"; u "pass1"].
Proof. reflexivity. Qed.

Example rsplit_short : rsplit colon 2 (u "a:b") = [u "a"; u "b"].
Proof. reflexivity. Qed.

Example strip_nbsp : strip (u "  Строка ") = u "Строка".
Proof. reflexivity. Qed.

Example decode_rejects_overlong : decode_utf8 ["192"%byte; "128"%byte] = None.
Proof. reflexivity. Qed.

Example isoformat_utc :
  isoformat (mkDatetime 2024 3 9 7 5 0 0 (Some 0%Z))
  = u "2024-03-09T07:05:00+00:00".
Proof. reflexivity. Qed.

Example isoformat_micro :
  isoformat (mkDatetime 2024 12 31 23 59 59 120 (Some 0%Z))
  = u "2024-12-31T23:59:59.000120+00:00".
Proof. reflexivity. Qed.

Example fromisoformat_micro :
  fromisoformat (u "2024-12-31T23:59:59.000120+00:00")
  = Some (mkDatetime 2024 12 31 23 59 59 120 (Some 0%Z)).
Proof. reflexivity. Qed.

Example fromisoformat_date_only :
  fromisoformat (u "2024-02-29")
  = Some (mkDatetime 2024 2 29 0 0 0 0 None).
Proof. reflexivity. Qed.

Example fromisoformat_bad_day : fromisoformat (u "2023-02-29T00:00:00") = None.
Proof. reflexivity. Qed.

Example import_two_of_three :
  fst (serve (import_resources scenario_file) empty_world)
  = Reply (mkReport (u "Импортировано ресурсов: 2") 2
                    [u "Строка 2: неверный формат (ожидается url:login:pass)"]).
Proof. vm_compute. reflexivity. Qed.

(** ** Running the monad *)

Lemma bind_ok {A B} {m : M A} (k : A -> M B) {w a w'} :
  m w = (Ok a, w') -> bind m k w = k a w'.
Proof. intros H. unfold bind. now rewrite H. Qed.

Lemma bind_raise {A B} {m : M A} (k : A -> M B) {w e w'} :
  m w = (Raise e, w') -> bind m k w = (Raise e, w').
Proof. intros H. unfold bind. now rewrite H. Qed.

Lemma driver_call_healthy w : healthy w -> driver_call w = (Ok tt, w).
Proof. unfold healthy, driver_call. now intros ->. Qed.

Lemma healthy_set_resources v w : healthy w -> healthy (set_resources v w).
Proof. exact (fun H => H). Qed.

Lemma healthy_set_next_oid v w : healthy w -> healthy (set_next_oid v w).
Proof. exact (fun H => H). Qed.

Lemma healthy_set_made v w : healthy w -> healthy (set_made v w).
Proof. exact (fun H => H). Qed.

Create HintDb world.
#[local] Hint Resolve healthy_set_resources healthy_set_next_oid
  healthy_set_made : world.

(** ** The import scenario *)

(** C3 (as amended): on the three-line scenario file the import answers
    200 with [imported = 2] and exactly one error, the handler's own
    message for line 2, whatever the collection held before, as long as
    the store answers. *)
Theorem import_scenario (w : World) :
  healthy w ->
  exists w',
    serve (import_resources scenario_file) w
    = (Reply (mkReport
                (u "Импортировано ресурсов: 2") 2
                [u "Строка 2: неверный формат (ожидается url:login:pass)"]),
       w').
Proof.
  destruct w as [rs oid out uu clk mk]. unfold healthy. simpl. intros ->.
  eexists. vm_compute. reflexivity.
Qed.

Lemma import_scenario_witness :
  exists w',
    serve (import_resources scenario_file) empty_world
    = (Reply (mkReport
                (u "Импортировано ресурсов: 2") 2
                [u "Строка 2: неверный формат (ожидается url:login:pass)"]),
       w').
Proof. apply (import_scenario empty_world). reflexivity. Defined.

(** The error list of the scenario is not the English rendering of the
    message. *)
Lemma import_scenario_not_english :
  ~ (exists r,
        fst (serve (import_resources scenario_file) empty_world) = Reply r
        /\ imported r = 2
        /\ errors r = [u "Line 2: invalid format (expected url:login:pass)"]).
Proof.
  intros [r [Hr [_ He]]]. vm_compute in Hr.
  injection Hr as <-. vm_compute in He. discriminate He.
Qed.

(** ** Strings: trimming *)

Lemma lstrip_nil_iff (s : str) : lstrip s = [] <-> forallb isspace s = true.
Proof.
  induction s as [|c s IH]; simpl.
  - tauto.
  - destruct (isspace c); simpl.
    + exact IH.
    + split; discriminate.
Qed.

Lemma forallb_isspace_lstrip (s : str) :
  forallb isspace (lstrip s) = forallb isspace s.
Proof.
  induction s as [|c s IH]; simpl; [reflexivity|].
  destruct (isspace c) eqn:E; simpl.
  - exact IH.
  - now rewrite E.
Qed.

Lemma forallb_rev {A} (f : A -> bool) (l : list A) :
  forallb f (rev l) = forallb f l.
Proof.
  induction l as [|a l IH]; simpl; [reflexivity|].
  rewrite forallb_app, IH. simpl. rewrite andb_true_r. apply andb_comm.
Qed.

Lemma is_empty_true (s : str) : is_empty s = true <-> s = [].
Proof. destruct s; simpl; split; congruence. Qed.

Lemma is_empty_false (s : str) : is_empty s = false <-> s <> [].
Proof. destruct s; simpl; split; congruence. Qed.

Lemma rev_nil_iff {A} (l : list A) : rev l = [] <-> l = [].
Proof.
  split; intros H.
  - rewrite <- (rev_involutive l), H. reflexivity.
  - now subst.
Qed.

(** A string trims to nothing exactly when it is all whitespace. *)
Lemma strip_nil_iff (s : str) : strip s = [] <-> forallb isspace s = true.
Proof.
  unfold strip, rstrip. split; intros H.
  - apply rev_nil_iff, lstrip_nil_iff in H.
    now rewrite forallb_rev, forallb_isspace_lstrip in H.
  - apply rev_nil_iff, lstrip_nil_iff.
    now rewrite forallb_rev, forallb_isspace_lstrip.
Qed.

Lemma is_empty_strip (s : str) : is_empty (strip s) = forallb isspace s.
Proof.
  destruct (forallb isspace s) eqn:E.
  - apply is_empty_true, strip_nil_iff, E.
  - apply is_empty_false. intros H. apply strip_nil_iff in H. congruence.
Qed.

Lemma nonblank_spec (s : str) : nonblank s = negb (forallb isspace s).
Proof. unfold nonblank. now rewrite is_empty_strip. Qed.

Lemma rstrip_snoc (s : str) (c : char) :
  rstrip (s ++ [c]) = if isspace c then rstrip s else s ++ [c].
Proof.
  unfold rstrip. rewrite rev_app_distr. simpl.
  destruct (isspace c); [reflexivity|].
  simpl. now rewrite rev_involutive.
Qed.

(** ** Strings: lines *)

Lemma count_nonblank_cons (l : str) (ls : list str) :
  count_nonblank (l :: ls)
  = (if forallb isspace l then 0 else 1) + count_nonblank ls.
Proof.
  unfold count_nonblank. simpl. rewrite nonblank_spec.
  destruct (forallb isspace l); reflexivity.
Qed.

Lemma split_cons (sep c : char) (s : str) :
  split sep (c :: s)
  = if (c =? sep)%N then [] :: split sep s
    else match split sep s with
         | h :: t => (c :: h) :: t
         | [] => [[c]]
         end.
Proof.
  unfold split. simpl. destruct (split_ne sep s) as [h t].
  destruct (c =? sep)%N; reflexivity.
Qed.

(** A leading whitespace character adds no non-blank line. *)
Lemma count_nonblank_split_cons (c : char) (s : str) :
  isspace c = true ->
  count_nonblank (split newline (c :: s)) = count_nonblank (split newline s).
Proof.
  intros Hc. rewrite split_cons. destruct (c =? newline)%N.
  - rewrite count_nonblank_cons. reflexivity.
  - unfold split. destruct (split_ne newline s) as [h t].
    rewrite !count_nonblank_cons. simpl. now rewrite Hc.
Qed.

Lemma count_nonblank_lstrip (s : str) :
  count_nonblank (split newline (lstrip s))
  = count_nonblank (split newline s).
Proof.
  induction s as [|c s IH]; [reflexivity|].
  simpl lstrip. destruct (isspace c) eqn:E; [|reflexivity].
  now rewrite IH, count_nonblank_split_cons.
Qed.

(** A trailing whitespace character changes neither the blankness of the
    first line nor the number of non-blank lines after it. *)
Lemma split_ne_snoc_space (c : char) (s : str) :
  isspace c = true ->
  forallb isspace (fst (split_ne newline (s ++ [c])))
  = forallb isspace (fst (split_ne newline s))
  /\ count_nonblank (snd (split_ne newline (s ++ [c])))
     = count_nonblank (snd (split_ne newline s)).
Proof.
  intros Hc. induction s as [|x s [IH1 IH2]]; simpl.
  - destruct (c =? newline)%N; simpl; [split; reflexivity|].
    rewrite Hc. split; reflexivity.
  - destruct (split_ne newline (s ++ [c])) as [h t].
    destruct (split_ne newline s) as [h' t']. simpl in IH1, IH2.
    destruct (x =? newline)%N; simpl.
    + rewrite !count_nonblank_cons, IH1, IH2. split; reflexivity.
    + rewrite IH1, IH2. split; reflexivity.
Qed.

Lemma count_nonblank_split_snoc (c : char) (s : str) :
  isspace c = true ->
  count_nonblank (split newline (s ++ [c]))
  = count_nonblank (split newline s).
Proof.
  intros Hc. destruct (split_ne_snoc_space c s Hc) as [H1 H2].
  unfold split.
  destruct (split_ne newline (s ++ [c])) as [h t].
  destruct (split_ne newline s) as [h' t']. simpl in H1, H2.
  now rewrite !count_nonblank_cons, H1, H2.
Qed.

Lemma count_nonblank_rstrip (s : str) :
  count_nonblank (split newline (rstrip s))
  = count_nonblank (split newline s).
Proof.
  induction s as [|c s IH] using rev_ind; [reflexivity|].
  rewrite rstrip_snoc. destruct (isspace c) eqn:E; [|reflexivity].
  now rewrite IH, count_nonblank_split_snoc.
Qed.

(** Trimming the whole text first, as the handler does, keeps the number
    of non-blank lines. *)
Lemma count_nonblank_strip (text : str) :
  count_nonblank (split newline (strip text))
  = count_nonblank (split newline text).
Proof.
  unfold strip. now rewrite count_nonblank_rstrip, count_nonblank_lstrip.
Qed.

(** ** Strings: splitting from the right *)

Lemma count_cons (sep c : char) (s : str) :
  count sep (c :: s) = (if (c =? sep)%N then 1 else 0) + count sep s.
Proof.
  unfold count. simpl. destruct (N.eq_dec c sep) as [->|Hne].
  - now rewrite N.eqb_refl.
  - apply N.eqb_neq in Hne. now rewrite Hne.
Qed.

Lemma count_zero_not_in (sep : char) (s : str) :
  count sep s = 0 <-> ~ In sep s.
Proof. unfold count. symmetry. apply count_occ_not_In. Qed.

(** The scan cuts once per separator, up to its budget. *)
Lemma rsplit_scan_length (sep : char) (r : str) :
  forall (n : nat) (cur : str) (out : list str),
    length (rsplit_scan sep n r cur out)
    = S (Nat.min n (count sep r) + length out).
Proof.
  induction r as [|c r IH]; intros n cur out.
  - simpl. now rewrite Nat.min_0_r.
  - destruct n as [|n]; [reflexivity|].
    simpl rsplit_scan. rewrite count_cons.
    destruct (c =? sep)%N.
    + rewrite IH. simpl. lia.
    + rewrite IH. simpl. reflexivity.
Qed.

(** Joined again, the fields give back what was scanned. *)
Lemma rsplit_scan_join (sep : char) (r : str) :
  forall (n : nat) (cur : str) (out : list str),
    join sep (rsplit_scan sep n r cur out)
    = join sep ((rev r ++ cur) :: out).
Proof.
  induction r as [|c r IH]; intros n cur out.
  - reflexivity.
  - destruct n as [|n]; [reflexivity|].
    simpl rsplit_scan. destruct (c =? sep)%N eqn:E.
    + apply N.eqb_eq in E. subst c. rewrite IH.
      rewrite app_nil_r. simpl rev.
      destruct out; simpl; now rewrite <- !app_assoc.
    + rewrite IH. simpl rev.
      destruct out; simpl; now rewrite <- !app_assoc.
Qed.

(** Every field but the first is free of the separator. *)
Lemma rsplit_scan_tail (sep : char) (r : str) :
  forall (n : nat) (cur : str) (out : list str),
    ~ In sep cur ->
    Forall (fun p => ~ In sep p) out ->
    Forall (fun p => ~ In sep p) (tl (rsplit_scan sep n r cur out)).
Proof.
  induction r as [|c r IH]; intros n cur out Hcur Hout.
  - exact Hout.
  - destruct n as [|n]; [exact Hout|].
    simpl rsplit_scan. destruct (c =? sep)%N eqn:E.
    + apply IH; [intros []|]. now constructor.
    + apply IH; [|exact Hout].
      apply N.eqb_neq in E. intros [H|H]; [congruence|contradiction].
Qed.

Lemma rsplit_length (sep : char) (n : nat) (s : str) :
  length (rsplit sep n s) = S (Nat.min n (count sep s)).
Proof.
  unfold rsplit. rewrite rsplit_scan_length. unfold count.
  rewrite count_occ_rev. simpl. now rewrite Nat.add_0_r.
Qed.

Lemma rsplit_join (sep : char) (n : nat) (s : str) :
  join sep (rsplit sep n s) = s.
Proof.
  unfold rsplit. rewrite rsplit_scan_join. simpl.
  now rewrite rev_involutive, app_nil_r.
Qed.

Lemma rsplit_tail (sep : char) (n : nat) (s : str) :
  Forall (fun p => ~ In sep p) (tl (rsplit sep n s)).
Proof. unfold rsplit. apply rsplit_scan_tail; [intros []|constructor]. Qed.

(** With two separators or more, [rsplit(sep, 2)] gives three fields: the
    last two are the text after the last two separators, the first is
    everything before them. *)
Lemma rsplit2_three (sep : char) (s : str) :
  2 <= count sep s ->
  exists a b c,
    rsplit sep 2 s = [a; b; c]
    /\ s = a ++ [sep] ++ b ++ [sep] ++ c
    /\ ~ In sep b /\ ~ In sep c.
Proof.
  intros H.
  pose proof (rsplit_length sep 2 s) as HL.
  pose proof (rsplit_join sep 2 s) as HJ.
  pose proof (rsplit_tail sep 2 s) as HT.
  rewrite Nat.min_l in HL by exact H.
  destruct (rsplit sep 2 s) as [|a [|b [|c [|d l]]]]; try discriminate HL.
  exists a, b, c. simpl in HJ, HT.
  inversion HT as [|? ? Hb HT']. inversion HT' as [|? ? Hc _]. subst.
  repeat split; auto.
Qed.

(** With fewer than two separators it gives fewer than three fields. *)
Lemma rsplit2_short (sep : char) (s : str) :
  count sep s <= 1 -> length (rsplit sep 2 s) <> 3.
Proof. intros H. rewrite rsplit_length. lia. Qed.

Lemma rsplit2_three_iff (sep : char) (s : str) :
  length (rsplit sep 2 s) = 3 <-> 2 <= count sep s.
Proof. rewrite rsplit_length. lia. Qed.

(** ** The store *)

Lemma driver_call_outcome (w : World) :
  (exists w', driver_call w = (Ok tt, w')
              /\ resources w' = resources w /\ next_oid w' = next_oid w
              /\ uuid4 w' = uuid4 w /\ utcnow w' = utcnow w
              /\ made w' = made w)
  \/ (exists w', driver_call w = (Raise PyMongoError, w')
                 /\ resources w' = resources w /\ ~ healthy w).
Proof.
  unfold driver_call, healthy. destruct (outages w) as [|[|] rest].
  - left. exists w. repeat split; reflexivity.
  - right. eexists. repeat split; try reflexivity. discriminate.
  - left. eexists. repeat split; reflexivity.
Qed.

Lemma insert_one_healthy (doc : Doc.t) (w : World) :
  healthy w ->
  Doc._id doc = None ->
  insert_one doc w
  = (Ok tt,
     set_next_oid (N.succ (next_oid w))
       (set_resources
          (resources w ++ [Doc.set__id (Some (next_oid w)) doc]) w)).
Proof.
  intros Hw Hid. unfold insert_one.
  rewrite (bind_ok _ (driver_call_healthy w Hw)). now rewrite Hid.
Qed.

(** An insert either stores the document or raises the driver's error; it
    raises nothing else. *)
Lemma insert_one_outcome (doc : Doc.t) (w : World) :
  (exists w', insert_one doc w = (Ok tt, w')
              /\ length (resources w') = S (length (resources w)))
  \/ (exists w', insert_one doc w = (Raise PyMongoError, w')
                 /\ resources w' = resources w /\ ~ healthy w).
Proof.
  unfold insert_one.
  destruct (driver_call_outcome w)
    as [(w1 & H1 & Hr & _)|(w1 & H1 & Hr & Hn)].
  - left. rewrite (bind_ok _ H1).
    destruct (Doc._id doc); eexists; split; try reflexivity;
      simpl; rewrite length_app, Hr; simpl; lia.
  - right. exists w1. rewrite (bind_raise _ H1). auto.
Qed.

(** Building a [Resource] and storing its document, with a store that
    answers. *)
Lemma store_new_healthy {B} (url login password : str) (k : Resource.t -> M B)
      (w : World) :
  healthy w ->
  bind (Resource_new url login password)
       (fun r => bind (insert_one (created_at_to_iso (model_dump r)))
                      (fun _ => k r)) w
  = k (Resource.mk (uuid4 w (made w)) url login password true
                   (utcnow w (made w)))
      (after_insert w url login password).
Proof.
  intros Hw. unfold bind, Resource_new.
  rewrite insert_one_healthy; [reflexivity|exact Hw|reflexivity].
Qed.

Lemma healthy_after_insert (w : World) (url login password : str) :
  healthy w -> healthy (after_insert w url login password).
Proof. exact (fun H => H). Qed.

(** ** One import line *)

Lemma import_line_blank (i : nat) (line : str) (acc : nat * list str)
      (w : World) :
  strip line = [] -> import_line i line acc w = (Ok acc, w).
Proof.
  intros H. unfold import_line. destruct acc as [n e]. now rewrite H.
Qed.

Lemma import_line_invalid (i : nat) (line : str) (n : nat) (e : list str)
      (w : World) :
  strip line <> [] ->
  count colon (strip line) <= 1 ->
  import_line i line (n, e) w = (Ok (n, e ++ [invalid_format i]), w).
Proof.
  intros Hne Hc. unfold import_line.
  apply is_empty_false in Hne. rewrite Hne.
  apply rsplit2_short in Hc. apply Nat.eqb_neq in Hc. now rewrite Hc.
Qed.

Lemma import_line_three (i : nat) (line : str) (n : nat) (e : list str)
      (w : World) (p1 p2 p3 : str) :
  strip line <> [] ->
  rsplit colon 2 (strip line) = [p1; p2; p3] ->
  import_line i line (n, e) w
  = if is_empty (strip p1) || is_empty (strip p2) || is_empty (strip p3)
    then (Ok (n, e ++ [empty_fields i]), w)
    else
      bind (Resource_new (strip p1) (strip p2) (strip p3))
           (fun r => bind (insert_one (created_at_to_iso (model_dump r)))
                          (fun _ => ret (n + 1, e))) w.
Proof.
  intros Hne Hp. unfold import_line.
  apply is_empty_false in Hne. rewrite Hne, Hp. simpl.
  destruct (is_empty (strip p1) || is_empty (strip p2)
            || is_empty (strip p3)); reflexivity.
Qed.

Lemma nonblank_true (line : str) : nonblank line = true <-> strip line <> [].
Proof.
  unfold nonblank. rewrite negb_true_iff. apply is_empty_false.
Qed.

Lemma nonblank_false (line : str) : nonblank line = false <-> strip line = [].
Proof.
  unfold nonblank. rewrite negb_false_iff. apply is_empty_true.
Qed.

Lemma import_line_outcome (i : nat) (line : str) (n : nat) (e : list str)
      (w : World) :
  line_outcome i line n e w (import_line i line (n, e) w).
Proof.
  destruct (nonblank line) eqn:Hb.
  - pose proof (proj1 (nonblank_true line) Hb) as Hne.
    destruct (le_lt_dec 2 (count colon (strip line))) as [H2|H1].
    + destruct (rsplit2_three colon (strip line) H2)
        as (p1 & p2 & p3 & Hp & _).
      rewrite (import_line_three i line n e w p1 p2 p3 Hne Hp).
      destruct (is_empty (strip p1) || is_empty (strip p2)
                || is_empty (strip p3)).
      * apply line_rejected; auto.
      * unfold bind at 1. unfold Resource_new.
        destruct (insert_one_outcome
                    (created_at_to_iso
                       (model_dump
                          (Resource.mk (uuid4 w (made w)) (strip p1)
                             (strip p2) (strip p3) true
                             (utcnow w (made w)))))
                    (set_made (S (made w)) w))
          as [(w' & Hi & Hl)|(w' & Hi & Hr & Hn)].
        -- rewrite (bind_ok _ Hi). apply line_stored; auto.
           intros Hw. unfold ret.
           rewrite insert_one_healthy in Hi
             by auto with world.
           injection Hi as <-. exact Hw.
        -- rewrite (bind_raise _ Hi). apply line_store_failed; auto.
    + rewrite import_line_invalid by (auto; lia).
      apply line_rejected; auto.
  - rewrite import_line_blank by (now apply nonblank_false).
    now apply line_skipped.
Qed.

(** ** The loop over the lines *)

(** With a store that answers, the loop ends normally and every non-blank
    line has added one import or one error. *)
Lemma import_lines_healthy (lines : list str) :
  forall (i n : nat) (e : list str) (w : World),
    healthy w ->
    exists n' e' w',
      import_lines i lines (n, e) w = (Ok (n', e'), w')
      /\ healthy w'
      /\ n' + length e' = n + length e + count_nonblank lines
      /\ length (resources w') + n = length (resources w) + n'.
Proof.
  induction lines as [|line rest IH]; intros i n e w Hw.
  - exists n, e, w. unfold count_nonblank. simpl. repeat split; auto; lia.
  - cbn [import_lines].
    assert (Hcount : count_nonblank (line :: rest)
                     = (if nonblank line then 1 else 0) + count_nonblank rest).
    { unfold count_nonblank. simpl. destruct (nonblank line); reflexivity. }
    unfold bind at 1.
    destruct (import_line_outcome i line n e w)
      as [Hb|msg Hb Hm|w1 Hb Hl Hh|w1 Hb Hn Hr].
    + destruct (IH (S i) n e w Hw) as (n' & e' & w' & H1 & H2 & H3 & H4).
      exists n', e', w'. rewrite Hcount, Hb. repeat split; auto.
    + destruct (IH (S i) n (e ++ [msg]) w Hw)
        as (n' & e' & w' & H1 & H2 & H3 & H4).
      exists n', e', w'. rewrite Hcount, Hb. repeat split; auto.
      rewrite length_app in H3. simpl in H3. lia.
    + destruct (IH (S i) (n + 1) e w1 (Hh Hw))
        as (n' & e' & w' & H1 & H2 & H3 & H4).
      exists n', e', w'. rewrite Hcount, Hb. repeat split; auto; lia.
    + contradiction.
Qed.

(** Whatever the store does, the loop ends normally or with the driver's
    error, and the latter only when the store does not answer. *)
Lemma import_lines_outcome (lines : list str) :
  forall (i : nat) (acc : nat * list str) (w : World),
    (exists acc' w', import_lines i lines acc w = (Ok acc', w'))
    \/ (exists w', import_lines i lines acc w = (Raise PyMongoError, w')
                   /\ ~ healthy w).
Proof.
  induction lines as [|line rest IH]; intros i [n e] w.
  - left. exists (n, e), w. reflexivity.
  - cbn [import_lines]. unfold bind.
    destruct (import_line_outcome i line n e w)
      as [Hb|msg Hb Hm|w1 Hb Hl Hh|w1 Hb Hn Hr].
    + apply IH.
    + apply IH.
    + destruct (IH (S i) (n + 1, e) w1) as [H|(w' & H & Hn)].
      * left. exact H.
      * right. exists w'. split; [exact H|]. intros Hw. apply Hn, Hh, Hw.
    + right. exists w1. split; [reflexivity|exact Hn].
Qed.

(** ** The import handler *)

Lemma import_resources_undecodable (contents : bytes) (w : World) :
  decode_utf8 contents = None ->
  serve (import_resources contents) w
  = (Failure 400 import_detail (Some UnicodeDecodeError), w).
Proof.
  intros H. unfold serve, import_resources, try_except. now rewrite H.
Qed.

Lemma import_resources_decoded (contents : bytes) (text : str) (w : World) :
  decode_utf8 contents = Some text ->
  serve (import_resources contents) w
  = match import_lines 1 (split newline (strip text)) (0, []) w with
    | (Ok (n, e), w') =>
        (Reply (mkReport (u "Импортировано ресурсов: " ++ str_of_nat n) n e),
         w')
    | (Raise exn, w') => (Failure 400 import_detail (Some exn), w')
    end.
Proof.
  intros H. unfold serve, import_resources, try_except. rewrite H.
  unfold bind.
  destruct (import_lines 1 (split newline (strip text)) (0, []) w)
    as [[[n e]|exn] w']; reflexivity.
Qed.



(** C4: a line that is not empty after trimming is split from the right
    at no more than two colons.  With two colons or more it has exactly
    three fields: login and password are the text after the last two
    colons and hold no colon, the url is everything before them; the
    line is stored, with the three fields trimmed, when all three are
    non-empty after trimming, and reported as having empty fields
    otherwise.  With no colon or one colon it is reported as invalid. *)
Theorem import_line_rsplit (i : nat) (line : str) (n : nat) (e : list str)
        (w : World) :
  healthy w ->
  strip line <> [] ->
  (2 <= count colon (strip line) ->
   exists url login password,
     rsplit colon 2 (strip line) = [url; login; password]
     /\ strip line = url ++ [colon] ++ login ++ [colon] ++ password
     /\ ~ In colon login /\ ~ In colon password
     /\ import_line i line (n, e) w
        = if is_empty (strip url) || is_empty (strip login)
             || is_empty (strip password)
          then (Ok (n, e ++ [empty_fields i]), w)
          else (Ok (n + 1, e),
                after_insert w (strip url) (strip login) (strip password)))
  /\ (count colon (strip line) <= 1 ->
      import_line i line (n, e) w = (Ok (n, e ++ [invalid_format i]), w)).
Proof.
  intros Hw Hne. split.
  - intros H2.
    destruct (rsplit2_three colon (strip line) H2)
      as (url & login & password & Hp & Hj & Hl & Hpw).
    exists url, login, password. repeat split; auto.
    rewrite (import_line_three i line n e w url login password Hne Hp).
    destruct (is_empty (strip url) || is_empty (strip login)
              || is_empty (strip password)); [reflexivity|].
    now rewrite store_new_healthy.
  - intros H1. now apply import_line_invalid.
Qed.

Lemma import_line_rsplit_witness :
  (exists url login password,
      rsplit colon 2 (strip (u " http://a.com:8080:user:pw "))
      = [url; login; password]
      /\ strip (u " http://a.com:8080:user:pw ")
         = url ++ [colon] ++ login ++ [colon] ++ password
      /\ ~ In colon login /\ ~ In colon password
      /\ import_line 4 (u " http://a.com:8080:user:pw ") (1, []) empty_world
         = if is_empty (strip url) || is_empty (strip login)
              || is_empty (strip password)
           then (Ok (1, [] ++ [empty_fields 4]), empty_world)
           else (Ok (1 + 1, []),
                 after_insert empty_world (strip url) (strip login)
                              (strip password)))
  /\ import_line 4 (u "user:pw") (1, []) empty_world
     = (Ok (1, [] ++ [invalid_format 4]), empty_world).
Proof.
  split.
  - apply (proj1 (import_line_rsplit 4 (u " http://a.com:8080:user:pw ")
                                     1 [] empty_world eq_refl
                                     ltac:(vm_compute; discriminate))).
    vm_compute. lia.
  - apply (proj2 (import_line_rsplit 4 (u "user:pw") 1 [] empty_world
                                     eq_refl
                                     ltac:(vm_compute; discriminate))).
    vm_compute. lia.
Defined.

Example import_line_extra_colons :
  import_line 4 (u " http://a.com:8080:user:pw ") (1, []) empty_world
  = (Ok (2, []),
     after_insert empty_world (u "http://a.com:8080") (u "user") (u "pw")).
Proof. vm_compute. reflexivity. Qed.

Lemma import_lines_numbered (lines : list str) :
  forall (i : nat) (acc : nat * list str) (w : World),
    import_lines i lines acc w
    = import_numbered
        (filter (fun p => nonblank (snd p)) (enumerate i lines)) acc w.
Proof.
  induction lines as [|line rest IH]; intros i acc w; [reflexivity|].
  cbn [import_lines enumerate filter snd].
  destruct (nonblank line) eqn:Hb.
  - cbn [import_numbered]. unfold bind.
    destruct (import_line i line acc w) as [[a|exn] w1];
      [apply IH|reflexivity].
  - apply nonblank_false in Hb.
    rewrite (bind_ok _ (import_line_blank i line acc w Hb)). apply IH.
Qed.

(** C5: a line that is empty after trimming changes nothing: the count,
    the error list and the store stay as they were, so the loop does what
    it would do on the other lines alone, each under its own number.  An
    empty file is one such line, and its report is [imported = 0] with no
    errors. *)
Theorem import_skips_blank_lines :
  (forall (i : nat) (line : str) (acc : nat * list str) (w : World),
      strip line = [] -> import_line i line acc w = (Ok acc, w))
  /\ (forall (i : nat) (lines : list str) (acc : nat * list str)
             (w : World),
         import_lines i lines acc w
         = import_numbered
             (filter (fun p => nonblank (snd p)) (enumerate i lines)) acc w)
  /\ (forall w : World,
         serve (import_resources []) w
         = (Reply (mkReport (u "Импортировано ресурсов: 0") 0 []), w)).
Proof.
  split; [|split].
  - exact import_line_blank.
  - intros i lines. apply import_lines_numbered.
  - intros w. reflexivity.
Qed.

Lemma import_skips_blank_lines_witness :
  import_line 3 (u "   ") (2, [invalid_format 1]) failing_world
  = (Ok (2, [invalid_format 1]), failing_world).
Proof.
  apply (proj1 import_skips_blank_lines 3 (u "   ")
               (2, [invalid_format 1]) failing_world).
  reflexivity.
Defined.

(** C10: for bytes that decode, with a store that answers, the import
    replies and [imported] plus the number of errors is the number of
    lines of the text that are not empty after trimming; each of them
    adds one stored document or one error. *)
Theorem import_accounts_for_lines (contents : bytes) (text : str)
        (w : World) :
  decode_utf8 contents = Some text ->
  healthy w ->
  exists rep w',
    serve (import_resources contents) w = (Reply rep, w')
    /\ imported rep + length (errors rep)
       = count_nonblank (split newline text)
    /\ length (resources w') = length (resources w) + imported rep.
Proof.
  intros Hd Hw. rewrite (import_resources_decoded contents text w Hd).
  destruct (import_lines_healthy (split newline (strip text)) 1 0 [] w Hw)
    as (n & e & w' & H & _ & Hsum & Hlen).
  rewrite H. eexists. exists w'. split; [reflexivity|]. simpl.
  rewrite count_nonblank_strip in Hsum. simpl in Hsum. split; lia.
Qed.

Lemma import_accounts_for_lines_witness :
  exists rep w',
    serve (import_resources scenario_file) empty_world = (Reply rep, w')
    /\ imported rep + length (errors rep)
       = count_nonblank
           (split newline
                  (u "http://a.com:user1:pass1" ++ [newline] ++ u "badline"
                   ++ [newline] ++ u "http://b.com:user2:pass2"))
    /\ length (resources w') = length (resources empty_world) + imported rep.
Proof.
  apply (import_accounts_for_lines scenario_file _ empty_world);
    reflexivity.
Defined.

(** Each non-blank line adds one import or one error, not both. *)
Lemma import_line_one_of (i : nat) (line : str) (n : nat) (e : list str)
      (w : World) :
  healthy w ->
  nonblank line = true ->
  exists n' e' w',
    import_line i line (n, e) w = (Ok (n', e'), w')
    /\ ((n' = n + 1 /\ e' = e
         /\ length (resources w') = S (length (resources w)))
        \/ (n' = n /\ w' = w /\ exists msg, e' = e ++ [msg])).
Proof.
  intros Hw Hb.
  destruct (import_line_outcome i line n e w)
    as [Hb'|msg _ _|w1 _ Hl _|w1 _ Hn _].
  - congruence.
  - exists n, (e ++ [msg]), w. split; [reflexivity|]. right. eauto.
  - exists (n + 1), e, w1. split; [reflexivity|]. left. auto.
  - contradiction.
Qed.

(** ** Line numbers *)

(** C1: a file whose first line is blank and whose second line is
    invalid gets its error reported for line 1: the handler numbers the
    lines of the text it has already trimmed as a whole. *)
Theorem import_numbers_trimmed_text :
  fst (serve (import_resources ([LF] ++ raw "badline")) empty_world)
  = Reply (mkReport
             (u "Импортировано ресурсов: 0") 0
             [u "Строка 1: неверный формат (ожидается url:login:pass)"]).
Proof. vm_compute. reflexivity. Qed.

(** ** Create *)

Lemma create_resource_healthy (input : ResourceCreate.t) (w : World) :
  healthy w ->
  serve (create_resource input) w
  = (Reply (Resource.mk (uuid4 w (made w)) (ResourceCreate.url input)
                        (ResourceCreate.login input)
                        (ResourceCreate.password input) true
                        (utcnow w (made w))),
     after_insert w (ResourceCreate.url input) (ResourceCreate.login input)
                  (ResourceCreate.password input)).
Proof.
  intros Hw. unfold serve, create_resource.
  now rewrite store_new_healthy.
Qed.

(** C6: a create request whose three fields are empty strings is
    accepted, and the document it stores has them empty. *)
Theorem create_stores_empty_fields :
  serve (create_resource (ResourceCreate.mk [] [] [])) empty_world
  = (Reply (Resource.mk (u "id-0") [] [] [] true (sample_clock 0)),
     after_insert empty_world [] [] [])
  /\ resources (after_insert empty_world [] [] [])
     = [Doc.mk (Some 1%N) (u "id-0") [] [] [] true
               (AsStr (u "2024-01-01T12:00:00.000250+00:00"))].
Proof. split; vm_compute; reflexivity. Qed.

(** The import, for its part, stores only non-empty fields. *)
Lemma import_line_stores_nonempty (i : nat) (line : str) (n : nat)
      (e : list str) (w w' : World) (n' : nat) (e' : list str) :
  healthy w ->
  import_line i line (n, e) w = (Ok (n', e'), w') ->
  w' = w
  \/ exists url login password,
      w' = after_insert w url login password
      /\ url <> [] /\ login <> [] /\ password <> [].
Proof.
  intros Hw H.
  destruct (strip line) as [|c t] eqn:Hs.
  - rewrite import_line_blank in H by exact Hs. left. congruence.
  - assert (Hne : strip line <> []) by (rewrite Hs; discriminate).
    destruct (le_lt_dec 2 (count colon (strip line))) as [H2|H1].
    + destruct (rsplit2_three colon (strip line) H2)
        as (url & login & password & Hp & _).
      rewrite (import_line_three i line n e w url login password Hne Hp)
        in H.
      rewrite store_new_healthy in H by exact Hw. unfold ret in H.
      destruct (is_empty (strip url)) eqn:E1;
        [left; simpl in H; congruence|].
      destruct (is_empty (strip login)) eqn:E2;
        [left; simpl in H; congruence|].
      destruct (is_empty (strip password)) eqn:E3;
        [left; simpl in H; congruence|].
      simpl in H. right.
      exists (strip url), (strip login), (strip password).
      apply is_empty_false in E1, E2, E3. repeat split; congruence.
    + rewrite import_line_invalid in H by (auto; lia). left. congruence.
Qed.

(** ** Update and delete *)

Lemma update_first_absent (rid : str) (f : Doc.t -> Doc.t) (ds : list Doc.t) :
  ~ In rid (map Doc.id ds) -> update_first rid f ds = None.
Proof.
  induction ds as [|d ds IH]; intros H; simpl; [reflexivity|].
  unfold str_eqb. destruct (str_eq_dec (Doc.id d) rid) as [E|E].
  - exfalso. apply H. left. exact E.
  - rewrite IH; [reflexivity|]. intros Hin. apply H. right. exact Hin.
Qed.

Lemma remove_first_absent (rid : str) (ds : list Doc.t) :
  ~ In rid (map Doc.id ds) -> remove_first rid ds = None.
Proof.
  induction ds as [|d ds IH]; intros H; simpl; [reflexivity|].
  unfold str_eqb. destruct (str_eq_dec (Doc.id d) rid) as [E|E].
  - exfalso. apply H. left. exact E.
  - rewrite IH; [reflexivity|]. intros Hin. apply H. right. exact Hin.
Qed.

(** C7: with a store that answers, setting the flag of an id no stored
    document has, or deleting it, is answered 404 and leaves the world
    as it was. *)
Theorem missing_id_not_found (rid : str) (v : bool) (w : World) :
  healthy w ->
  ~ In rid (map Doc.id (resources w)) ->
  serve (update_resource rid (ResourceUpdate.mk v)) w
  = (Failure 404 (u "Ресурс не найден") None, w)
  /\ serve (delete_resource rid) w
     = (Failure 404 (u "Ресурс не найден") None, w).
Proof.
  intros Hw Hno. split.
  - unfold serve, update_resource, find_one_and_update, bind.
    rewrite (driver_call_healthy w Hw). simpl.
    now rewrite (update_first_absent rid _ (resources w) Hno).
  - unfold serve, delete_resource, delete_one, bind.
    rewrite (driver_call_healthy w Hw).
    now rewrite (remove_first_absent rid (resources w) Hno).
Qed.

Lemma missing_id_not_found_witness :
  serve (update_resource (u "id-7") (ResourceUpdate.mk false)) two_docs_world
  = (Failure 404 (u "Ресурс не найден") None, two_docs_world)
  /\ serve (delete_resource (u "id-7")) two_docs_world
     = (Failure 404 (u "Ресурс не найден") None, two_docs_world).
Proof.
  apply (missing_id_not_found (u "id-7") false two_docs_world).
  - reflexivity.
  - vm_compute. intros [H|[H|[]]]; discriminate H.
Defined.

Lemma update_first_found (rid : str) (f : Doc.t -> Doc.t) (ds : list Doc.t)
      (d : Doc.t) :
  lookup rid ds = Some d ->
  exists ds', update_first rid f ds = Some (f d, ds')
              /\ length ds' = length ds.
Proof.
  unfold lookup. induction ds as [|x ds IH]; simpl; [discriminate|].
  destruct (str_eqb (Doc.id x) rid).
  - intros [= ->]. eexists. split; reflexivity.
  - intros H. destruct (IH H) as (ds' & -> & Hl).
    eexists. split; [reflexivity|]. simpl. now rewrite Hl.
Qed.

(** An update that keeps the [id] and is idempotent on a document is
    idempotent on the collection. *)
Lemma update_first_idem (rid : str) (f : Doc.t -> Doc.t) :
  (forall x, f (f x) = f x) ->
  (forall x, Doc.id (f x) = Doc.id x) ->
  forall (ds ds' : list Doc.t) (r : Doc.t),
    update_first rid f ds = Some (r, ds') ->
    update_first rid f ds' = Some (r, ds').
Proof.
  intros Hidem Hid. induction ds as [|x ds IH]; intros ds' r; simpl.
  - discriminate.
  - destruct (str_eqb (Doc.id x) rid) eqn:E.
    + intros [= <- <-]. simpl. now rewrite Hid, E, Hidem.
    + destruct (update_first rid f ds) as [[r0 ds0]|] eqn:Hu;
        [|discriminate].
      intros [= <- <-]. simpl. now rewrite E, (IH ds0 r0 eq_refl).
Qed.

(** A collection an update leaves as it is holds the updated document
    under that [id]. *)
Lemma update_first_fixed_lookup (rid : str) (f : Doc.t -> Doc.t)
      (ds : list Doc.t) (r : Doc.t) :
  update_first rid f ds = Some (r, ds) -> lookup rid ds = Some r.
Proof.
  unfold lookup. induction ds as [|x ds IH]; simpl; [discriminate|].
  destruct (str_eqb (Doc.id x) rid) eqn:E.
  - intros H. injection H as H1 H2. congruence.
  - destruct (update_first rid f ds) as [[r0 ds0]|] eqn:Hu; [|discriminate].
    intros H. injection H as H1 H2. subst. now apply IH.
Qed.

Lemma update_resource_found (rid : str) (v : bool) (w : World)
      (r : Doc.t) (ds : list Doc.t) (t : datetime) :
  healthy w ->
  update_first rid (Doc.set_is_active v) (resources w) = Some (r, ds) ->
  stored_timestamp r = Some t ->
  serve (update_resource rid (ResourceUpdate.mk v)) w
  = (Reply (Resource.mk (Doc.id r) (Doc.url r) (Doc.login r)
                        (Doc.password r) (Doc.is_active r) t),
     set_resources ds w).
Proof.
  intros Hw Hu Ht.
  unfold serve, update_resource, find_one_and_update, bind.
  rewrite (driver_call_healthy w Hw). simpl. rewrite Hu.
  destruct r as [oid rid' url login password act ts].
  unfold stored_timestamp in Ht. simpl in Ht.
  unfold created_at_from_iso, Resource_of_doc. simpl.
  destruct ts as [s|t0].
  - rewrite Ht. reflexivity.
  - injection Ht as ->. reflexivity.
Qed.


(** ** Timestamps: printing and parsing *)

Lemma digit_range (k : Z) : (48 <= digit k <= 57)%N.
Proof.
  unfold digit. pose proof (Z.mod_pos_bound k 10 eq_refl). lia.
Qed.

Lemma digit_val_digit (k : Z) : digit_val (digit k) = Some (k mod 10)%Z.
Proof.
  unfold digit_val, in_range.
  pose proof (digit_range k) as [H1 H2].
  apply N.leb_le in H1, H2. rewrite H1, H2. simpl.
  unfold digit. pose proof (Z.mod_pos_bound k 10 eq_refl).
  f_equal. lia.
Qed.

Lemma digit_neq (k : Z) (c : char) :
  (c < 48 \/ 57 < c)%N -> (digit k =? c)%N = false.
Proof.
  intros H. apply N.eqb_neq. pose proof (digit_range k). lia.
Qed.

Lemma int_digits_app (s1 s2 : str) :
  forall acc : Z,
    int_digits acc (s1 ++ s2)
    = match int_digits acc s1 with
      | Some a => int_digits a s2
      | None => None
      end.
Proof.
  induction s1 as [|c s1 IH]; intros acc; simpl; [reflexivity|].
  destruct (digit_val c); [apply IH|reflexivity].
Qed.

Lemma int_digits_zfill (w : nat) :
  forall acc n : Z,
    int_digits acc (zfill w n)
    = Some (acc * 10 ^ Z.of_nat w + n mod 10 ^ Z.of_nat w)%Z.
Proof.
  induction w as [|w IH]; intros acc n.
  - simpl. rewrite Z.mod_1_r. f_equal. lia.
  - cbn [zfill]. rewrite int_digits_app, IH. cbn [int_digits].
    rewrite digit_val_digit. f_equal.
    rewrite Nat2Z.inj_succ, Z.pow_succ_r by lia.
    rewrite (Z.rem_mul_r n 10 (10 ^ Z.of_nat w)) by lia.
    lia.
Qed.

Lemma zfill_length (w : nat) : forall n : Z, length (zfill w n) = w.
Proof.
  induction w as [|w IH]; intros n; [reflexivity|].
  cbn [zfill]. rewrite length_app, IH. simpl. lia.
Qed.

(** A field printed on [w] digits reads back as itself. *)
Lemma int_of_zfill (w : nat) (n : Z) :
  (0 < w)%nat ->
  (0 <= n < 10 ^ Z.of_nat w)%Z ->
  int_of (zfill w n) = Some n.
Proof.
  intros Hw Hn. unfold int_of.
  destruct (zfill w n) eqn:E.
  - pose proof (zfill_length w n) as HL. rewrite E in HL. simpl in HL. lia.
  - rewrite <- E, int_digits_zfill. f_equal.
    rewrite Z.mod_small by exact Hn. lia.
Qed.

Lemma int_of_2 (n : Z) :
  (0 <= n < 100)%Z -> int_of [digit (n / 10); digit n] = Some n.
Proof. intros H. apply (int_of_zfill 2 n); [lia|simpl; lia]. Qed.

Lemma int_of_4 (n : Z) :
  (0 <= n < 10000)%Z ->
  int_of [digit (n / 10 / 10 / 10); digit (n / 10 / 10); digit (n / 10);
          digit n] = Some n.
Proof. intros H. apply (int_of_zfill 4 n); [lia|simpl; lia]. Qed.

Lemma int_of_6 (n : Z) :
  (0 <= n < 1000000)%Z ->
  int_of [digit (n / 10 / 10 / 10 / 10 / 10); digit (n / 10 / 10 / 10 / 10);
          digit (n / 10 / 10 / 10); digit (n / 10 / 10); digit (n / 10);
          digit n] = Some n.
Proof. intros H. apply (int_of_zfill 6 n); [lia|simpl; lia]. Qed.

(** Evaluation of the list operations of the parser, leaving the digits
    and the arithmetic alone. *)
Ltac list_step :=
  cbn [firstn skipn nth length app zfill Nat.eqb Nat.ltb Nat.leb negb
       find_char option_map is_empty
       N.eqb Pos.eqb dash colon dot plus letter_T].

Ltac list_step_in H :=
  cbn [firstn skipn nth length app zfill Nat.eqb Nat.ltb Nat.leb negb
       find_char option_map is_empty
       N.eqb Pos.eqb dash colon dot plus letter_T] in H.

Ltac not_digit := vm_compute; auto.

Ltac zdiv := Z.div_mod_to_equations; lia.

Ltac parse_step :=
  repeat first
    [ progress list_step
    | rewrite digit_neq by not_digit
    | rewrite int_of_2 by zdiv
    | rewrite int_of_6 by lia ].

(** The ranges a valid [datetime] keeps its fields in. *)
Lemma valid_bounds (d : datetime) :
  valid_datetime d = true ->
  (1 <= year d <= 9999 /\ 1 <= month d <= 12 /\ 1 <= day d <= 31
   /\ 0 <= hour d <= 23 /\ 0 <= minute d <= 59 /\ 0 <= second d <= 59
   /\ 0 <= microsecond d <= 999999
   /\ match tzinfo d with
      | Some off => -1439 <= off <= 1439
      | None => True
      end)%Z.
Proof.
  unfold valid_datetime, between. intros H.
  repeat (apply andb_true_iff in H; destruct H as [H ?]).
  repeat match goal with
         | H : (_ <=? _)%Z = true |- _ => apply Z.leb_le in H
         end.
  assert (days_in_month (year d) (month d) <= 31)%Z.
  { unfold days_in_month.
    repeat match goal with
           | |- context [if ?c then _ else _] => destruct c
           end; lia. }
  destruct (tzinfo d).
  - apply andb_true_iff in H0. destruct H0 as [Ha Hb].
    apply Z.leb_le in Ha, Hb. lia.
  - lia.
Qed.

Lemma parse_offset_round_trip (off : Z) :
  (-1439 <= off <= 1439)%Z ->
  parse_offset (if (off <? 0)%Z then dash else plus)
    [digit (Z.abs off / 60 / 10); digit (Z.abs off / 60); colon;
     digit (Z.abs off mod 60 / 10); digit (Z.abs off mod 60)]
  = Some off.
Proof.
  intros H. unfold parse_offset, parse_hh_mm_ss_ff. parse_step.
  destruct (off <? 0)%Z eqn:E; parse_step; f_equal.
  - apply Z.ltb_lt in E. zdiv.
  - apply Z.ltb_ge in E. zdiv.
Qed.

Lemma parse_time_round_trip (h mi s us : Z) (tz : option Z) :
  (0 <= h <= 23)%Z -> (0 <= mi <= 59)%Z -> (0 <= s <= 59)%Z ->
  (0 <= us <= 999999)%Z ->
  match tz with Some off => (-1439 <= off <= 1439)%Z | None => True end ->
  parse_isoformat_time
    (zfill 2 h ++ [colon] ++ zfill 2 mi ++ [colon] ++ zfill 2 s
     ++ (if (us =? 0)%Z then [] else dot :: zfill 6 us)
     ++ format_offset tz)
  = Some (h, mi, s, us, tz).
Proof.
  intros Hh Hmi Hs Hus Htz.
  destruct tz as [off|]; unfold format_offset;
    [pose proof (parse_offset_round_trip off Htz) as Hoff|];
    (destruct (us =? 0)%Z eqn:Eus;
     [apply Z.eqb_eq in Eus; subst us|]);
    try (destruct (off <? 0)%Z eqn:Eoff);
    unfold parse_isoformat_time; parse_step;
    try rewrite Hoff; unfold parse_hh_mm_ss_ff, parse_fraction; parse_step;
    reflexivity.
Qed.

(** What [isoformat] prints of a valid [datetime], [fromisoformat] reads
    back as that [datetime], microseconds and offset included. *)
Lemma isoformat_round_trip (d : datetime) :
  valid_datetime d = true -> fromisoformat (isoformat d) = Some d.
Proof.
  intros Hv. pose proof (valid_bounds d Hv) as Hb.
  destruct d as [y mo dd h mi s us tz]. simpl in Hb.
  destruct Hb as (Hy & Hmo & Hdd & Hh & Hmi & Hs & Hus & Htz).
  pose proof (parse_time_round_trip h mi s us tz Hh Hmi Hs Hus Htz) as Ht.
  unfold isoformat, fromisoformat.
  cbn [year month day hour minute second microsecond tzinfo].
  list_step. list_step_in Ht. rewrite Ht.
  unfold parse_isoformat_date. parse_step.
  rewrite int_of_4 by lia. now rewrite Hv.
Qed.

(** C9: the [created_at] of a resource, written to its document as an
    ISO-8601 string on insert and parsed back on read, is the timestamp
    the resource was given, to the microsecond; the document read back
    builds the same resource. *)
Theorem created_at_round_trip (r : Resource.t) (w : World) :
  valid_datetime (Resource.created_at r) = true ->
  Doc.created_at (created_at_to_iso (model_dump r))
  = AsStr (isoformat (Resource.created_at r))
  /\ fromisoformat (isoformat (Resource.created_at r))
     = Some (Resource.created_at r)
  /\ bind (created_at_from_iso (created_at_to_iso (model_dump r)))
          Resource_of_doc w
     = (Ok r, w).
Proof.
  intros Hv. pose proof (isoformat_round_trip _ Hv) as Hrt.
  split; [reflexivity|]. split; [exact Hrt|].
  destruct r as [rid url login password act t]. simpl in Hrt.
  unfold bind, created_at_from_iso, created_at_to_iso, model_dump. simpl.
  rewrite Hrt. reflexivity.
Qed.

Lemma created_at_round_trip_witness :
  Doc.created_at
    (created_at_to_iso
       (model_dump (Resource.mk (u "id-0") (u "http://a.com") (u "user1")
                                (u "pass1") true (sample_clock 0))))
  = AsStr (isoformat (sample_clock 0))
  /\ fromisoformat (isoformat (sample_clock 0)) = Some (sample_clock 0)
  /\ bind (created_at_from_iso
             (created_at_to_iso
                (model_dump (Resource.mk (u "id-0") (u "http://a.com")
                                         (u "user1") (u "pass1") true
                                         (sample_clock 0)))))
          Resource_of_doc empty_world
     = (Ok (Resource.mk (u "id-0") (u "http://a.com") (u "user1")
                        (u "pass1") true (sample_clock 0)),
        empty_world).
Proof.
  apply (created_at_round_trip
           (Resource.mk (u "id-0") (u "http://a.com") (u "user1")
                        (u "pass1") true (sample_clock 0))
           empty_world).
  reflexivity.
Defined.

(** A document the service has stored reads back with the timestamp it
    was given. *)
Lemma stored_doc_timestamp (w : World) (url login password : str) :
  valid_datetime (utcnow w (made w)) = true ->
  stored_timestamp (stored_doc w url login password)
  = Some (utcnow w (made w)).
Proof. intros Hv. unfold stored_timestamp. simpl. now apply isoformat_round_trip. Qed.

Example create_then_list :
  fst (serve
         (create_resource
            (ResourceCreate.mk (u "http://a.com") (u "user1") (u "pass1")) ;;;
          get_resources)%py
         empty_world)
  = Reply [Resource.mk (u "id-0") (u "http://a.com") (u "user1") (u "pass1")
                       true (sample_clock 0)].
Proof. vm_compute. reflexivity. Qed.

(** ** Stored timestamps stay readable

    Every document the service stores can be read back, and neither an
    update nor a delete changes that: the condition under which an
    update replies holds of every collection the handlers have built. *)

Lemma readable_after_insert (w : World) (url login password : str) :
  valid_datetime (utcnow w (made w)) = true ->
  Forall readable (resources w) ->
  Forall readable (resources (after_insert w url login password)).
Proof.
  intros Hv Hw. simpl. apply Forall_app. split; [exact Hw|].
  constructor; [|constructor].
  unfold readable. now rewrite stored_doc_timestamp.
Qed.

Lemma readable_update_first (rid : str) (v : bool) (ds : list Doc.t) :
  Forall readable ds ->
  forall (r : Doc.t) (ds' : list Doc.t),
    update_first rid (Doc.set_is_active v) ds = Some (r, ds') ->
    readable r /\ Forall readable ds'.
Proof.
  induction 1 as [|x ds Hx Hds IH]; intros r ds'; simpl; [discriminate|].
  assert (Hx' : readable (Doc.set_is_active v x)) by (destruct x; exact Hx).
  destruct (str_eqb (Doc.id x) rid).
  - intros H. injection H as <- <-. split; [exact Hx'|].
    constructor; assumption.
  - destruct (update_first rid (Doc.set_is_active v) ds) as [[r0 ds0]|];
      [|discriminate].
    intros H. injection H as <- <-.
    destruct (IH r0 ds0 eq_refl) as [Hr H0]. split; [exact Hr|].
    constructor; assumption.
Qed.

Lemma readable_remove_first (rid : str) (ds : list Doc.t) :
  Forall readable ds ->
  forall ds' : list Doc.t,
    remove_first rid ds = Some ds' -> Forall readable ds'.
Proof.
  induction 1 as [|x ds Hx Hds IH]; intros ds'; simpl; [discriminate|].
  destruct (str_eqb (Doc.id x) rid).
  - intros H. injection H as <-. exact Hds.
  - destruct (remove_first rid ds) as [ds0|]; [|discriminate].
    intros H. injection H as <-. constructor; [exact Hx|]. now apply IH.
Qed.

(* ===================================================================== *)
(** * Further properties of the handlers *)
(* ===================================================================== *)

(** ** Calls to the store *)

Lemma driver_call_eq (w : World) :
  driver_call w
  = (if call_fails w then Raise PyMongoError else Ok tt, after_call w).
Proof.
  unfold driver_call, call_fails, after_call.
  destruct (outages w) as [|[|] rest]; reflexivity.
Qed.

Lemma resources_after_call (w : World) :
  resources (after_call w) = resources w.
Proof. unfold after_call. destruct (outages w); reflexivity. Qed.

Lemma str_eqb_eq (a b : str) : str_eqb a b = true <-> a = b.
Proof.
  unfold str_eqb. destruct (str_eq_dec a b); split; congruence.
Qed.

(** The stored document of an id splits the collection: nothing before
    it carries the id, an update rewrites it in place and a delete takes
    it out. *)
Lemma lookup_split (rid : str) (ds : list Doc.t) (d : Doc.t) :
  lookup rid ds = Some d ->
  exists pre post,
    ds = pre ++ d :: post
    /\ ~ In rid (map Doc.id pre)
    /\ Doc.id d = rid
    /\ (forall f, update_first rid f ds = Some (f d, pre ++ f d :: post))
    /\ remove_first rid ds = Some (pre ++ post).
Proof.
  unfold lookup. induction ds as [|x ds IH]; simpl; [discriminate|].
  destruct (str_eqb (Doc.id x) rid) eqn:E.
  - intros H. injection H as ->. exists [], ds.
    apply str_eqb_eq in E. repeat split; auto.
  - intros H. destruct (IH H) as (pre & post & -> & Hpre & Hid & Hu & Hr).
    exists (x :: pre), post. repeat split; auto.
    + simpl. intros [Hx|Hin]; [|contradiction].
      apply str_eqb_eq in Hx. congruence.
    + intros f. now rewrite Hu.
    + now rewrite Hr.
Qed.

Lemma lookup_present (rid : str) (ds : list Doc.t) :
  In rid (map Doc.id ds) -> exists d, lookup rid ds = Some d.
Proof.
  unfold lookup. induction ds as [|x ds IH]; simpl; [contradiction|].
  destruct (str_eqb (Doc.id x) rid) eqn:E; [eauto|].
  intros [Hx|Hin]; [|auto].
  apply str_eqb_eq in Hx. congruence.
Qed.

(** ** Store failures outside the import *)

(** X1: when the store fails the call a create, list, update or delete
    makes, the handler does not catch the driver's error: the answer is a
    500 and the collection is as it was. *)
Theorem crud_store_failure (w : World) (input : ResourceCreate.t)
        (rid : str) (upd : ResourceUpdate.t) :
  call_fails w = true ->
  (fst (serve (create_resource input) w) = server_error PyMongoError
   /\ resources (snd (serve (create_resource input) w)) = resources w)
  /\ (fst (serve get_resources w) = server_error PyMongoError
      /\ resources (snd (serve get_resources w)) = resources w)
  /\ (fst (serve (update_resource rid upd) w) = server_error PyMongoError
      /\ resources (snd (serve (update_resource rid upd) w)) = resources w)
  /\ (fst (serve (delete_resource rid) w) = server_error PyMongoError
      /\ resources (snd (serve (delete_resource rid) w)) = resources w).
Proof.
  intros Hf.
  assert (Hf' : call_fails (set_made (S (made w)) w) = true) by exact Hf.
  repeat split.
  - unfold serve, create_resource, Resource_new, insert_one, bind.
    rewrite driver_call_eq, Hf'. reflexivity.
  - unfold serve, create_resource, Resource_new, insert_one, bind.
    rewrite driver_call_eq, Hf'. simpl.
    apply (resources_after_call (set_made (S (made w)) w)).
  - unfold serve, get_resources, find_all, bind.
    rewrite driver_call_eq, Hf. reflexivity.
  - unfold serve, get_resources, find_all, bind.
    rewrite driver_call_eq, Hf. simpl. apply resources_after_call.
  - unfold serve, update_resource, find_one_and_update, bind.
    rewrite driver_call_eq, Hf. reflexivity.
  - unfold serve, update_resource, find_one_and_update, bind.
    rewrite driver_call_eq, Hf. simpl. apply resources_after_call.
  - unfold serve, delete_resource, delete_one, bind.
    rewrite driver_call_eq, Hf. reflexivity.
  - unfold serve, delete_resource, delete_one, bind.
    rewrite driver_call_eq, Hf. simpl. apply resources_after_call.
Qed.

Lemma crud_store_failure_witness :
  (fst (serve (create_resource
                 (ResourceCreate.mk (u "http://a.com") (u "user1")
                                    (u "pass1"))) failing_world)
   = server_error PyMongoError
   /\ resources
        (snd (serve (create_resource
                       (ResourceCreate.mk (u "http://a.com") (u "user1")
                                          (u "pass1"))) failing_world))
      = resources failing_world)
  /\ (fst (serve get_resources failing_world) = server_error PyMongoError
      /\ resources (snd (serve get_resources failing_world))
         = resources failing_world)
  /\ (fst (serve (update_resource (u "id-0") (ResourceUpdate.mk false))
                 failing_world) = server_error PyMongoError
      /\ resources
           (snd (serve (update_resource (u "id-0")
                                        (ResourceUpdate.mk false))
                       failing_world))
         = resources failing_world)
  /\ (fst (serve (delete_resource (u "id-0")) failing_world)
      = server_error PyMongoError
      /\ resources (snd (serve (delete_resource (u "id-0")) failing_world))
         = resources failing_world).
Proof.
  apply (crud_store_failure
           failing_world
           (ResourceCreate.mk (u "http://a.com") (u "user1") (u "pass1"))
           (u "id-0") (ResourceUpdate.mk false)).
  reflexivity.
Defined.

(** ** Update *)


Lemma update_resource_absent (rid : str) (v : bool) (w : World) :
  healthy w ->
  ~ In rid (ids w) ->
  serve (update_resource rid (ResourceUpdate.mk v)) w
  = (Failure 404 (u "Ресурс не найден") None, w).
Proof.
  intros Hw Hno.
  unfold serve, update_resource, find_one_and_update, bind.
  rewrite (driver_call_healthy w Hw). simpl.
  now rewrite (update_first_absent rid _ (resources w) Hno).
Qed.

Lemma delete_resource_absent (rid : str) (w : World) :
  healthy w ->
  ~ In rid (ids w) ->
  serve (delete_resource rid) w
  = (Failure 404 (u "Ресурс не найден") None, w).
Proof.
  intros Hw Hno.
  unfold serve, delete_resource, delete_one, bind.
  rewrite (driver_call_healthy w Hw).
  now rewrite (remove_first_absent rid (resources w) Hno).
Qed.

Lemma delete_resource_found (rid : str) (w : World) (ds : list Doc.t) :
  healthy w ->
  remove_first rid (resources w) = Some ds ->
  serve (delete_resource rid) w
  = (Reply (u "Ресурс удалён"), set_resources ds w).
Proof.
  intros Hw Hr.
  unfold serve, delete_resource, delete_one, bind.
  rewrite (driver_call_healthy w Hw). now rewrite Hr.
Qed.

(** ** Delete *)

(** X4: with a store that answers, a delete of a stored id takes out the
    first document carrying that id and no other: the documents before
    and after it stay, in their order. *)
Theorem delete_removes_one (rid : str) (w : World) (d : Doc.t) :
  healthy w ->
  lookup rid (resources w) = Some d ->
  exists pre post,
    resources w = pre ++ d :: post
    /\ ~ In rid (map Doc.id pre)
    /\ serve (delete_resource rid) w
       = (Reply (u "Ресурс удалён"), set_resources (pre ++ post) w).
Proof.
  intros Hw Hd.
  destruct (lookup_split rid (resources w) d Hd)
    as (pre & post & Hs & Hpre & _ & _ & Hr).
  exists pre, post. repeat split; auto.
  now apply delete_resource_found.
Qed.

Lemma delete_removes_one_witness :
  exists pre post,
    resources two_docs_world
    = pre ++ Doc.mk (Some 2%N) (u "id-1") (u "http://b.com") (u "user2")
                    (u "pass2") false
                    (AsStr (u "2024-01-01T12:00:01+00:00")) :: post
    /\ ~ In (u "id-1") (map Doc.id pre)
    /\ serve (delete_resource (u "id-1")) two_docs_world
       = (Reply (u "Ресурс удалён"),
          set_resources (pre ++ post) two_docs_world).
Proof.
  apply (delete_removes_one
           (u "id-1") two_docs_world
           (Doc.mk (Some 2%N) (u "id-1") (u "http://b.com") (u "user2")
                   (u "pass2") false
                   (AsStr (u "2024-01-01T12:00:01+00:00"))));
    reflexivity.
Defined.

(** X5: when no two stored documents share an id, a deleted id is gone:
    the delete succeeds once, the collection is one document shorter,
    and a second delete or an update of that id is answered 404. *)
Theorem delete_then_not_found (rid : str) (v : bool) (w : World) :
  healthy w ->
  NoDup (ids w) ->
  In rid (ids w) ->
  exists w',
    serve (delete_resource rid) w = (Reply (u "Ресурс удалён"), w')
    /\ S (length (resources w')) = length (resources w)
    /\ ~ In rid (ids w')
    /\ serve (delete_resource rid) w'
       = (Failure 404 (u "Ресурс не найден") None, w')
    /\ serve (update_resource rid (ResourceUpdate.mk v)) w'
       = (Failure 404 (u "Ресурс не найден") None, w').
Proof.
  intros Hw Hnd Hin.
  destruct (lookup_present rid (resources w) Hin) as [d Hd].
  destruct (lookup_split rid (resources w) d Hd)
    as (pre & post & Hs & Hpre & Hid & _ & Hr).
  assert (Hgone : ~ In rid (ids (set_resources (pre ++ post) w))).
  { unfold ids in *. simpl. rewrite Hs in Hnd.
    rewrite map_app in Hnd. simpl in Hnd.
    apply NoDup_remove_2 in Hnd. rewrite Hid in Hnd.
    now rewrite map_app. }
  exists (set_resources (pre ++ post) w). repeat split.
  - now apply delete_resource_found.
  - simpl. rewrite Hs, !length_app. simpl. lia.
  - exact Hgone.
  - now apply delete_resource_absent.
  - now apply update_resource_absent.
Qed.

Lemma delete_then_not_found_witness :
  exists w',
    serve (delete_resource (u "id-0")) two_docs_world
    = (Reply (u "Ресурс удалён"), w')
    /\ S (length (resources w')) = length (resources two_docs_world)
    /\ ~ In (u "id-0") (ids w')
    /\ serve (delete_resource (u "id-0")) w'
       = (Failure 404 (u "Ресурс не найден") None, w')
    /\ serve (update_resource (u "id-0") (ResourceUpdate.mk true)) w'
       = (Failure 404 (u "Ресурс не найден") None, w').
Proof.
  apply (delete_then_not_found (u "id-0") true two_docs_world).
  - reflexivity.
  - vm_compute. repeat constructor.
    + intros [H|[]]. discriminate H.
    + intros [].
  - vm_compute. left. reflexivity.
Defined.

(** ** List *)

Lemma for_each_pure {A B} (f : A -> M B) (g : A -> option B)
      (exn : Exception) :
  (forall x w,
      f x w = (match g x with Some y => Ok y | None => Raise exn end, w)) ->
  forall xs w,
    for_each f xs w
    = (match traverse g xs with Some ys => Ok ys | None => Raise exn end,
       w).
Proof.
  intros Hf. induction xs as [|x xs IH]; intros w; [reflexivity|].
  cbn [for_each traverse]. unfold bind. rewrite Hf.
  destruct (g x); [|reflexivity].
  rewrite IH. destruct (traverse g xs); reflexivity.
Qed.

Lemma created_at_from_iso_pure (d : Doc.t) (w : World) :
  created_at_from_iso d w
  = (match parse_doc d with Some p => Ok p | None => Raise ValueError end,
     w).
Proof.
  unfold created_at_from_iso, parse_doc.
  destruct (Doc.created_at d) as [s|t]; [|reflexivity].
  destruct (fromisoformat s); reflexivity.
Qed.

Lemma Resource_of_doc_pure (d : Doc.t) (w : World) :
  Resource_of_doc d w
  = (match read d with Some r => Ok r | None => Raise ValueError end, w).
Proof.
  unfold Resource_of_doc, read, stored_timestamp, shown.
  destruct (Doc.created_at d) as [s|t]; [|reflexivity].
  destruct (fromisoformat s); reflexivity.
Qed.

Lemma read_parse_doc (d : Doc.t) :
  match parse_doc (Doc.set__id None d) with
  | Some p => read p = read d
  | None => read d = None
  end.
Proof.
  destruct d as [oid i0 url login password act [s|t]];
    unfold parse_doc, read, stored_timestamp, shown; simpl;
    [|reflexivity].
  destruct (fromisoformat s); reflexivity.
Qed.

Lemma read_parsed (ds : list Doc.t) :
  match traverse parse_doc (map (Doc.set__id None) ds) with
  | Some ps => traverse read ps
  | None => None
  end = traverse read ds.
Proof.
  induction ds as [|d ds IH]; [reflexivity|].
  cbn [map traverse]. pose proof (read_parse_doc d) as Hd.
  destruct (parse_doc (Doc.set__id None d)) as [p|].
  - destruct (traverse parse_doc (map (Doc.set__id None) ds)) as [ps|].
    + cbn [traverse]. now rewrite Hd, IH.
    + rewrite <- IH. destruct (read d); reflexivity.
  - now rewrite Hd.
Qed.

(** The list handler, with a store that answers, is the pure reading of
    the first thousand documents. *)
Lemma get_resources_run (w : World) :
  healthy w ->
  get_resources w
  = (match traverse read (firstn 1000 (resources w)) with
     | Some rs => Ok rs
     | None => Raise ValueError
     end, w).
Proof.
  intros Hw. unfold get_resources, find_all, bind.
  rewrite (driver_call_healthy w Hw).
  rewrite (for_each_pure created_at_from_iso parse_doc ValueError
                         created_at_from_iso_pure).
  rewrite <- read_parsed.
  destruct (traverse parse_doc
              (map (Doc.set__id None) (firstn 1000 (resources w))))
    as [ps|]; [|reflexivity].
  rewrite (for_each_pure Resource_of_doc read ValueError
                         Resource_of_doc_pure).
  destruct (traverse read ps); reflexivity.
Qed.

Lemma get_resources_eq (w : World) :
  healthy w ->
  serve get_resources w
  = (match traverse read (firstn 1000 (resources w)) with
     | Some rs => Reply rs
     | None => server_error ValueError
     end, w).
Proof.
  intros Hw. unfold serve. rewrite (get_resources_run w Hw).
  destruct (traverse read (firstn 1000 (resources w))); reflexivity.
Qed.

Lemma create_resource_run (input : ResourceCreate.t) (w : World) :
  healthy w ->
  create_resource input w
  = (Ok (Resource.mk (uuid4 w (made w)) (ResourceCreate.url input)
                     (ResourceCreate.login input)
                     (ResourceCreate.password input) true
                     (utcnow w (made w))),
     after_insert w (ResourceCreate.url input) (ResourceCreate.login input)
                  (ResourceCreate.password input)).
Proof.
  intros Hw. unfold create_resource. now rewrite store_new_healthy.
Qed.

Lemma firstn_snoc {A} (x : A) (xs : list A) :
  forall n : nat,
    firstn n (xs ++ [x])
    = if length xs <? n then xs ++ [x] else firstn n xs.
Proof.
  induction xs as [|y xs IH]; intros n.
  - destruct n; simpl; [reflexivity|now rewrite firstn_nil].
  - destruct n as [|n]; [reflexivity|].
    cbn [app firstn length]. rewrite IH.
    change (S (length xs) <? S n) with (length xs <? n).
    destruct (length xs <? n); reflexivity.
Qed.

Lemma traverse_read_all (ds : list Doc.t) :
  Forall readable ds ->
  exists rs,
    traverse read ds = Some rs
    /\ Forall2 (fun d r => exists t, stored_timestamp d = Some t
                                     /\ r = shown d t) ds rs.
Proof.
  induction 1 as [|d ds Hd Hds (rs & Hrs & HF)].
  - exists []. split; [reflexivity|constructor].
  - unfold readable in Hd.
    destruct (stored_timestamp d) as [t|] eqn:Ht; [|contradiction].
    exists (shown d t :: rs). cbn [traverse]. unfold read at 1.
    rewrite Ht, Hrs. split; [reflexivity|].
    constructor; [eauto|exact HF].
Qed.

Lemma traverse_read_none (ds : list Doc.t) :
  Exists (fun d => stored_timestamp d = None) ds ->
  traverse read ds = None.
Proof.
  induction 1 as [d ds Hd|d ds Hds IH]; cbn [traverse].
  - unfold read. now rewrite Hd.
  - rewrite IH. destruct (read d); reflexivity.
Qed.

Lemma traverse_app {A B} (g : A -> option B) (xs ys : list A) :
  traverse g (xs ++ ys)
  = match traverse g xs, traverse g ys with
    | Some a, Some b => Some (a ++ b)
    | _, _ => None
    end.
Proof.
  induction xs as [|x xs IH]; simpl.
  - destruct (traverse g ys); reflexivity.
  - rewrite IH. destruct (g x); [|reflexivity].
    destruct (traverse g xs); [|reflexivity].
    destruct (traverse g ys); reflexivity.
Qed.



(** ** Trimming, once more *)

Lemma lstrip_head (s : str) (c : char) (r : str) :
  lstrip s = c :: r -> isspace c = false.
Proof.
  induction s as [|x s IH]; simpl; [discriminate|].
  destruct (isspace x) eqn:E; [exact IH|].
  intros H. injection H as <- _. exact E.
Qed.

Lemma lstrip_idem (s : str) : lstrip (lstrip s) = lstrip s.
Proof.
  destruct (lstrip s) as [|c r] eqn:E; [reflexivity|].
  simpl. now rewrite (lstrip_head s c r E).
Qed.

Lemma rstrip_idem (s : str) : rstrip (rstrip s) = rstrip s.
Proof. unfold rstrip. now rewrite rev_involutive, lstrip_idem. Qed.

Lemma rstrip_cons (x : char) (h : str) :
  rstrip (x :: h)
  = match rstrip h with
    | [] => if isspace x then [] else [x]
    | r => x :: r
    end.
Proof.
  induction h as [|c h IH] using rev_ind.
  - unfold rstrip. simpl. destruct (isspace x); reflexivity.
  - change (x :: h ++ [c]) with ((x :: h) ++ [c]).
    rewrite !rstrip_snoc. destruct (isspace c); [exact IH|].
    destruct h; reflexivity.
Qed.

(** Trimming the left end and the right end commute. *)
Lemma lstrip_rstrip (s : str) : lstrip (rstrip s) = rstrip (lstrip s).
Proof.
  induction s as [|c s IH]; [reflexivity|].
  rewrite rstrip_cons. simpl lstrip at 2.
  destruct (isspace c) eqn:E.
  - rewrite <- IH. destruct (rstrip s); cbn [lstrip]; rewrite ?E;
      reflexivity.
  - rewrite rstrip_cons. destruct (rstrip s); cbn [lstrip]; rewrite ?E;
      reflexivity.
Qed.

Lemma strip_idem (s : str) : strip (strip s) = strip s.
Proof.
  unfold strip.
  now rewrite <- lstrip_rstrip, rstrip_idem, lstrip_rstrip, lstrip_idem.
Qed.

Lemma In_lstrip (x : char) (s : str) : In x (lstrip s) -> In x s.
Proof.
  induction s as [|c s IH]; simpl; [auto|].
  destruct (isspace c); [auto|]. simpl. auto.
Qed.

Lemma In_strip (x : char) (s : str) : In x (strip s) -> In x s.
Proof.
  unfold strip, rstrip. intros H.
  apply In_lstrip. apply (proj2 (in_rev _ _)).
  apply In_lstrip. apply (proj2 (in_rev _ _)). exact H.
Qed.

(** ** The import, line by line *)

(** Building a [Resource] and storing its document, whatever the store
    does. *)
Lemma store_new_any {B} (url login password : str) (k : Resource.t -> M B)
      (w : World) :
  bind (Resource_new url login password)
       (fun r => bind (insert_one (created_at_to_iso (model_dump r)))
                      (fun _ => k r)) w
  = if call_fails w then (Raise PyMongoError, after_failed_insert w)
    else k (Resource.mk (uuid4 w (made w)) url login password true
                        (utcnow w (made w)))
           (after_stored w url login password).
Proof.
  unfold bind, Resource_new, insert_one, bind.
  rewrite driver_call_eq.
  unfold call_fails, after_failed_insert, after_stored, after_call.
  simpl. destruct (outages w) as [|[|] rest]; reflexivity.
Qed.

(** The loop body is its verdict on the line, followed by the store
    when the line is accepted. *)
Lemma import_line_verdict (i : nat) (line : str) (n : nat) (e : list str)
      (w : World) :
  import_line i line (n, e) w
  = match line_verdict line with
    | Blank => (Ok (n, e), w)
    | Invalid => (Ok (n, e ++ [invalid_format i]), w)
    | EmptyFields => (Ok (n, e ++ [empty_fields i]), w)
    | Accepted url login password =>
        if call_fails w then (Raise PyMongoError, after_failed_insert w)
        else (Ok (n + 1, e), after_stored w url login password)
    end.
Proof.
  unfold import_line, line_verdict.
  destruct (is_empty (strip line)); [reflexivity|].
  destruct (rsplit colon 2 (strip line)) as [|p1 [|p2 [|p3 [|p4 l]]]];
    try reflexivity.
  cbn [length Nat.eqb negb map].
  destruct (is_empty (strip p1) || is_empty (strip p2)
            || is_empty (strip p3)); [reflexivity|].
  apply store_new_any.
Qed.

(** What an accepted line's fields are like. *)
Lemma verdict_accepted (line url login password : str) :
  line_verdict line = Accepted url login password ->
  url <> [] /\ login <> [] /\ password <> []
  /\ strip url = url /\ strip login = login /\ strip password = password
  /\ ~ In colon login /\ ~ In colon password.
Proof.
  unfold line_verdict.
  destruct (is_empty (strip line)); [discriminate|].
  pose proof (rsplit_tail colon 2 (strip line)) as HT.
  destruct (rsplit colon 2 (strip line)) as [|p1 [|p2 [|p3 [|p4 l]]]];
    try discriminate.
  destruct (is_empty (strip p1)) eqn:E1; [discriminate|].
  destruct (is_empty (strip p2)) eqn:E2; [discriminate|].
  destruct (is_empty (strip p3)) eqn:E3; [discriminate|].
  simpl. intros H. injection H as <- <- <-.
  apply is_empty_false in E1, E2, E3.
  simpl in HT. inversion HT as [|? ? H2 HT']. inversion HT' as [|? ? H3 _].
  repeat split; auto using strip_idem.
  - intros Hin. apply H2. now apply In_strip.
  - intros Hin. apply H3. now apply In_strip.
Qed.

Lemma imported_stored_doc (w : World) (line url login password : str) :
  line_verdict line = Accepted url login password ->
  imported_doc (stored_doc w url login password).
Proof.
  intros H. destruct (verdict_accepted line url login password H)
    as (H1 & H2 & H3 & H4 & H5 & H6 & H7 & H8).
  unfold imported_doc. simpl. repeat split; auto. eauto.
Qed.

Lemma after_stored_healthy (w : World) (url login password : str) :
  healthy w ->
  after_stored w url login password = after_insert w url login password.
Proof.
  unfold healthy, after_stored, after_call. simpl. now intros ->.
Qed.

Lemma call_fails_healthy (w : World) : healthy w -> call_fails w = false.
Proof. unfold healthy, call_fails. now intros ->. Qed.

(** With a store that answers, the loop is the pure reading of the
    lines. *)
Lemma import_lines_pure (lines : list str) :
  forall (i n : nat) (e : list str) (w : World),
    healthy w ->
    import_lines i lines (n, e) w
    = (Ok (n + length (accepted_of lines), e ++ errors_of i lines),
       insert_all w (accepted_of lines)).
Proof.
  induction lines as [|line rest IH]; intros i n e w Hw.
  - simpl. now rewrite Nat.add_0_r, app_nil_r.
  - cbn [import_lines accepted_of errors_of]. unfold bind.
    rewrite import_line_verdict.
    destruct (line_verdict line) as [| | |url login password].
    + now apply IH.
    + rewrite IH by exact Hw. now rewrite <- app_assoc.
    + rewrite IH by exact Hw. now rewrite <- app_assoc.
    + rewrite (call_fails_healthy w Hw), (after_stored_healthy _ _ _ _ Hw).
      rewrite IH by (now apply healthy_after_insert).
      cbn [length insert_all].
      now rewrite <- Nat.add_assoc.
Qed.

(** X9: for bytes that decode and a store that answers, the reply is a
    function of the text alone, not of what the collection holds:
    [imported] is the number of accepted lines, the errors are the
    messages of the rejected lines in line order, each numbered by its
    position among the lines of the trimmed text; the accepted lines are
    stored in line order, with their trimmed fields. *)
Theorem import_report_from_text (contents : bytes) (text : str)
        (w : World) :
  decode_utf8 contents = Some text ->
  healthy w ->
  serve (import_resources contents) w
  = (Reply (mkReport
              (u "Импортировано ресурсов: "
               ++ str_of_nat
                    (length (accepted_of (split newline (strip text)))))
              (length (accepted_of (split newline (strip text))))
              (errors_of 1 (split newline (strip text)))),
     insert_all w (accepted_of (split newline (strip text)))).
Proof.
  intros Hd Hw. rewrite (import_resources_decoded contents text w Hd).
  now rewrite import_lines_pure.
Qed.

Lemma import_report_from_text_witness :
  serve (import_resources scenario_file) two_docs_world
  = (Reply (mkReport
              (u "Импортировано ресурсов: 2") 2
              [u "Строка 2: неверный формат (ожидается url:login:pass)"]),
     insert_all two_docs_world
                [(u "http://a.com", u "user1", u "pass1");
                 (u "http://b.com", u "user2", u "pass2")]).
Proof.
  apply (import_report_from_text
           scenario_file
           (u "http://a.com:user1:pass1" ++ [newline] ++ u "badline"
            ++ [newline] ++ u "http://b.com:user2:pass2")
           two_docs_world); reflexivity.
Defined.

(** Whatever the store does, the loop only appends, and what it appends
    are documents of accepted lines; when the store fails, the documents
    stored before the failing call are there. *)
Lemma import_lines_appends (lines : list str) :
  forall (i n : nat) (e : list str) (w : World),
  exists added,
    resources (snd (import_lines i lines (n, e) w)) = resources w ++ added
    /\ Forall imported_doc added
    /\ match fst (import_lines i lines (n, e) w) with
       | Ok (n', _) => n' = n + length added
       | Raise PyMongoError =>
           length added = leading_ok (outages w)
           /\ leading_ok (outages w) < length (outages w)
       | Raise _ => False
       end.
Proof.
  induction lines as [|line rest IH]; intros i n e w.
  - exists []. simpl. rewrite app_nil_r. repeat split; auto.
  - cbn [import_lines]. unfold bind. rewrite import_line_verdict.
    destruct (line_verdict line) as [| | |url login password] eqn:Hv;
      try apply IH.
    unfold call_fails, after_failed_insert, after_stored, after_call.
    cbn [outages after_insert set_next_oid set_resources set_made].
    destruct (outages w) as [|[|] faults] eqn:Ho.
    + destruct (IH (S i) (n + 1) e (after_insert w url login password))
        as (added & Hr & Hf & Hres).
      exists (stored_doc w url login password :: added).
      split; [|split].
      * rewrite Hr. simpl. now rewrite <- app_assoc.
      * constructor; [now apply (imported_stored_doc w line)|exact Hf].
      * destruct (fst (import_lines (S i) rest (n + 1, e)
                                    (after_insert w url login password)))
          as [[n' e']|exn].
        -- simpl. lia.
        -- cbn [outages after_insert set_next_oid set_resources set_made]
             in Hres. rewrite Ho in Hres.
           destruct exn; try contradiction. simpl in Hres. lia.
    + exists []. simpl. rewrite app_nil_r. repeat split; auto. lia.
    + destruct (IH (S i) (n + 1) e
                   (set_outages faults
                      (after_insert w url login password)))
        as (added & Hr & Hf & Hres).
      exists (stored_doc w url login password :: added).
      split; [|split].
      * rewrite Hr. simpl. now rewrite <- app_assoc.
      * constructor; [now apply (imported_stored_doc w line)|exact Hf].
      * destruct (fst (import_lines (S i) rest (n + 1, e)
                         (set_outages faults
                            (after_insert w url login password))))
          as [[n' e']|exn].
        -- simpl. lia.
        -- destruct exn; try contradiction. simpl in Hres |- *. lia.
Qed.

(** X10: whatever the store does, an import only appends to the
    collection: the documents stored before are kept as they are, and
    each added one is active, with non-empty trimmed fields and no colon
    in login or password.  On a 200 [imported] is the number of added
    documents.  On a store failure the documents stored before the
    failing call stay: nothing is rolled back. *)
Theorem import_only_appends (contents : bytes) (w : World) :
  exists added,
    resources (snd (serve (import_resources contents) w))
    = resources w ++ added
    /\ Forall imported_doc added
    /\ match fst (serve (import_resources contents) w) with
       | Reply rep => imported rep = length added
       | Failure _ _ (Some PyMongoError) =>
           length added = leading_ok (outages w)
       | Failure _ _ _ => added = []
       end.
Proof.
  destruct (decode_utf8 contents) as [text|] eqn:Hd.
  - rewrite (import_resources_decoded contents text w Hd).
    destruct (import_lines_appends (split newline (strip text)) 1 0 [] w)
      as (added & Hr & Hf & Hres).
    exists added.
    destruct (import_lines 1 (split newline (strip text)) (0, []) w)
      as [[[n e]|exn] w']; simpl in *.
    + repeat split; auto.
    + destruct exn; try contradiction. repeat split; auto. tauto.
  - rewrite (import_resources_undecodable contents w Hd).
    exists []. simpl. rewrite app_nil_r. repeat split; auto.
Qed.

(** ** Import and create *)

Lemma create_resource_any (input : ResourceCreate.t) (w : World) :
  create_resource input w
  = if call_fails w then (Raise PyMongoError, after_failed_insert w)
    else (Ok (Resource.mk (uuid4 w (made w)) (ResourceCreate.url input)
                          (ResourceCreate.login input)
                          (ResourceCreate.password input) true
                          (utcnow w (made w))),
          after_stored w (ResourceCreate.url input)
                       (ResourceCreate.login input)
                       (ResourceCreate.password input)).
Proof. unfold create_resource. now rewrite store_new_any. Qed.

(** X11: an accepted import line does to the world what a create request
    with the line's trimmed fields does, whether the store answers or
    not: the same document is stored, or the same error is raised with
    nothing stored. *)
Theorem import_line_is_create (i : nat) (line : str) (n : nat)
        (e : list str) (w : World) (url login password : str) :
  line_verdict line = Accepted url login password ->
  snd (import_line i line (n, e) w)
  = snd (create_resource (ResourceCreate.mk url login password) w)
  /\ match fst (import_line i line (n, e) w),
           fst (create_resource (ResourceCreate.mk url login password) w)
     with
     | Ok acc, Ok r =>
         acc = (n + 1, e)
         /\ r = Resource.mk (uuid4 w (made w)) url login password true
                            (utcnow w (made w))
     | Raise a, Raise c => a = c
     | _, _ => False
     end.
Proof.
  intros Hv. rewrite import_line_verdict, Hv, create_resource_any.
  simpl. destruct (call_fails w); simpl; auto.
Qed.

Lemma import_line_is_create_witness :
  snd (import_line 1 (u " http://a.com:8080 : user : pw ") (0, [])
                   failing_world)
  = snd (create_resource
           (ResourceCreate.mk (u "http://a.com:8080") (u "user") (u "pw"))
           failing_world)
  /\ match fst (import_line 1 (u " http://a.com:8080 : user : pw ") (0, [])
                            failing_world),
           fst (create_resource
                  (ResourceCreate.mk (u "http://a.com:8080") (u "user")
                                     (u "pw")) failing_world)
     with
     | Ok acc, Ok r =>
         acc = (0 + 1, [])
         /\ r = Resource.mk (uuid4 failing_world (made failing_world))
                            (u "http://a.com:8080") (u "user") (u "pw") true
                            (utcnow failing_world (made failing_world))
     | Raise a, Raise c => a = c
     | _, _ => False
     end.
Proof.
  apply (import_line_is_create 1 (u " http://a.com:8080 : user : pw ")
                               0 [] failing_world).
  reflexivity.
Defined.

(** ** Line numbers and leading blank lines *)

Lemma import_line_strip (i : nat) (line : str) (acc : nat * list str)
      (w : World) :
  import_line i (strip line) acc w = import_line i line acc w.
Proof. unfold import_line. now rewrite strip_idem. Qed.

Lemma import_numbered_strip (ps : list (nat * str)) :
  forall (acc : nat * list str) (w : World),
    import_numbered (map (fun p => (fst p, strip (snd p))) ps) acc w
    = import_numbered ps acc w.
Proof.
  induction ps as [|[i line] ps IH]; intros acc w; [reflexivity|].
  cbn [map import_numbered fst snd]. unfold bind.
  rewrite import_line_strip.
  destruct (import_line i line acc w) as [[a|exn] w1];
    [apply IH|reflexivity].
Qed.

(** The loop depends on the lines through their numbers and their
    trimmed text only. *)
Lemma import_lines_numbered_trimmed (i : nat) (lines : list str)
      (acc : nat * list str) (w : World) :
  import_lines i lines acc w
  = import_numbered (numbered_trimmed i lines) acc w.
Proof.
  unfold numbered_trimmed.
  now rewrite import_numbered_strip, import_lines_numbered.
Qed.

Lemma numbered_trimmed_cons (i : nat) (l : str) (ls : list str) :
  numbered_trimmed i (l :: ls)
  = (if nonblank l then [(i, strip l)] else [])
    ++ numbered_trimmed (S i) ls.
Proof.
  unfold numbered_trimmed. cbn [enumerate filter snd].
  destruct (nonblank l); reflexivity.
Qed.

Lemma strip_of_rstrip (a c : str) : rstrip a = rstrip c -> strip a = strip c.
Proof.
  intros H. unfold strip. now rewrite <- !lstrip_rstrip, H.
Qed.

Lemma numbered_trimmed_head (i : nat) (a c : str) (ls : list str) :
  strip a = strip c ->
  numbered_trimmed i (a :: ls) = numbered_trimmed i (c :: ls).
Proof.
  intros H. rewrite !numbered_trimmed_cons. unfold nonblank.
  now rewrite H.
Qed.

Lemma strip_space_cons (c : char) (s : str) :
  isspace c = true -> strip (c :: s) = strip s.
Proof. intros H. unfold strip. simpl. now rewrite H. Qed.

(** A trailing whitespace character changes neither the first line, up
    to trimming on the right, nor what the later lines contribute. *)
Lemma split_ne_snoc_trimmed (c : char) (s : str) :
  isspace c = true ->
  rstrip (fst (split_ne newline (s ++ [c])))
  = rstrip (fst (split_ne newline s))
  /\ forall i,
      numbered_trimmed i (snd (split_ne newline (s ++ [c])))
      = numbered_trimmed i (snd (split_ne newline s)).
Proof.
  intros Hc. induction s as [|x s [IH1 IH2]]; simpl.
  - destruct (c =? newline)%N; simpl.
    + split; [reflexivity|]. intros i. reflexivity.
    + split; [|reflexivity]. unfold rstrip. simpl. now rewrite Hc.
  - destruct (split_ne newline (s ++ [c])) as [h t].
    destruct (split_ne newline s) as [h' t']. simpl in IH1, IH2.
    destruct (x =? newline)%N; simpl.
    + split; [reflexivity|]. intros i.
      rewrite (numbered_trimmed_head i h h' t (strip_of_rstrip _ _ IH1)).
      rewrite !numbered_trimmed_cons. now rewrite IH2.
    + split; [|exact IH2]. now rewrite !rstrip_cons, IH1.
Qed.

Lemma numbered_trimmed_split_snoc (c : char) (s : str) (i : nat) :
  isspace c = true ->
  numbered_trimmed i (split newline (s ++ [c]))
  = numbered_trimmed i (split newline s).
Proof.
  intros Hc. destruct (split_ne_snoc_trimmed c s Hc) as [H1 H2].
  unfold split.
  destruct (split_ne newline (s ++ [c])) as [h t].
  destruct (split_ne newline s) as [h' t']. simpl in H1, H2.
  rewrite (numbered_trimmed_head i h h' t (strip_of_rstrip _ _ H1)).
  rewrite !numbered_trimmed_cons. now rewrite H2.
Qed.

Lemma numbered_trimmed_rstrip (s : str) (i : nat) :
  numbered_trimmed i (split newline (rstrip s))
  = numbered_trimmed i (split newline s).
Proof.
  induction s as [|c s IH] using rev_ind; [reflexivity|].
  rewrite rstrip_snoc. destruct (isspace c) eqn:E; [|reflexivity].
  now rewrite IH, numbered_trimmed_split_snoc.
Qed.

(** Trimming the left end of the text drops its leading blank lines and
    nothing else. *)
Lemma numbered_trimmed_lstrip (s : str) :
  forall i,
    numbered_trimmed i (split newline (lstrip s))
    = numbered_trimmed i (skipn (leading_newlines s) (split newline s)).
Proof.
  induction s as [|c s IH]; intros i; [reflexivity|].
  cbn [lstrip leading_newlines]. destruct (isspace c) eqn:E;
    [|reflexivity].
  rewrite IH, split_cons. destruct (c =? newline)%N; [reflexivity|].
  unfold split. destruct (split_ne newline s) as [h t].
  cbn [Nat.add]. destruct (leading_newlines s) as [|k]; [|reflexivity].
  cbn [skipn]. apply numbered_trimmed_head.
  now rewrite strip_space_cons.
Qed.

Lemma leading_lines_blank (s : str) :
  Forall (fun l => nonblank l = false)
         (firstn (leading_newlines s) (split newline s)).
Proof.
  induction s as [|c s IH]; [constructor|].
  cbn [leading_newlines]. destruct (isspace c) eqn:E; [|constructor].
  rewrite split_cons. destruct (c =? newline)%N.
  - cbn [Nat.add firstn]. constructor; [reflexivity|exact IH].
  - revert IH. unfold split. destruct (split_ne newline s) as [h t].
    cbn [Nat.add]. destruct (leading_newlines s) as [|k]; [constructor|].
    cbn [firstn]. intros IH. inversion IH as [|? ? Hh Ht]. subst.
    constructor; [|exact Ht].
    rewrite nonblank_spec in Hh |- *. simpl. now rewrite E.
Qed.

(** X12: the numbers in the import's error messages count from the first
    non-blank line of the file.  The loop over the trimmed text does
    what it would do over the lines of the text as uploaded with its
    leading blank lines cut off: a line is reported under its position
    in the file less the number of blank lines the file starts with. *)
Theorem import_numbers_skip_leading_blanks (text : str) :
  Forall (fun l => nonblank l = false)
         (firstn (leading_newlines text) (split newline text))
  /\ forall (acc : nat * list str) (w : World),
      import_lines 1 (split newline (strip text)) acc w
      = import_lines 1 (skipn (leading_newlines text) (split newline text))
                     acc w.
Proof.
  split; [apply leading_lines_blank|]. intros acc w.
  rewrite !import_lines_numbered_trimmed. unfold strip.
  now rewrite numbered_trimmed_rstrip, numbered_trimmed_lstrip.
Qed.

(** ** Unique ids *)

Lemma snd_serve {A} (h : M A) (w : World) : snd (serve h w) = snd (h w).
Proof.
  unfold serve. destruct (h w) as [[a|exn] w']; [reflexivity|].
  destruct exn; reflexivity.
Qed.

(** The invariant looks at the ids, the uuid source and the number of
    resources built, and bears more of the latter. *)
Lemma ids_invariant_ext (w w' : World) :
  ids w' = ids w -> uuid4 w' = uuid4 w -> made w <= made w' ->
  ids_invariant w -> ids_invariant w'.
Proof.
  unfold ids_invariant, uuid_injective.
  intros Hi Hu Hm (Hinj & Hnd & Hold). rewrite Hi, Hu.
  repeat split; auto.
  intros rid Hin. destruct (Hold rid Hin) as (k & Hk & ->).
  exists k. split; [lia|reflexivity].
Qed.

Lemma ids_invariant_after_call (w : World) :
  ids_invariant w -> ids_invariant (after_call w).
Proof.
  apply ids_invariant_ext; unfold after_call;
    destruct (outages w); auto.
Qed.

Lemma ids_invariant_after_insert (w : World) (url login password : str) :
  ids_invariant w -> ids_invariant (after_insert w url login password).
Proof.
  unfold ids_invariant, uuid_injective, ids. simpl.
  intros (Hinj & Hnd & Hold). rewrite map_app. simpl.
  repeat split; auto.
  - apply NoDup_app; [exact Hnd|repeat constructor; intros []|].
    intros rid Hin [<-|[]].
    destruct (Hold _ Hin) as (k & Hk & Heq).
    apply Hinj in Heq. lia.
  - intros rid Hin. apply in_app_or in Hin. destruct Hin as [Hin|[<-|[]]].
    + destruct (Hold rid Hin) as (k & Hk & ->). exists k. split; [lia|auto].
    + exists (made w). split; [lia|reflexivity].
Qed.

Lemma ids_invariant_after_stored (w : World) (url login password : str) :
  ids_invariant w -> ids_invariant (after_stored w url login password).
Proof.
  intros H. apply ids_invariant_after_call.
  now apply ids_invariant_after_insert.
Qed.

Lemma ids_invariant_after_failed_insert (w : World) :
  ids_invariant w -> ids_invariant (after_failed_insert w).
Proof.
  intros H. apply ids_invariant_after_call.
  apply (ids_invariant_ext w); simpl; auto.
Qed.

Lemma update_first_ids (rid : str) (f : Doc.t -> Doc.t) :
  (forall x, Doc.id (f x) = Doc.id x) ->
  forall (ds ds' : list Doc.t) (r : Doc.t),
    update_first rid f ds = Some (r, ds') ->
    map Doc.id ds' = map Doc.id ds.
Proof.
  intros Hid. induction ds as [|x ds IH]; intros ds' r; simpl;
    [discriminate|].
  destruct (str_eqb (Doc.id x) rid).
  - intros H. injection H as _ <-. simpl. now rewrite Hid.
  - destruct (update_first rid f ds) as [[r0 ds0]|] eqn:Hu; [|discriminate].
    intros H. injection H as _ <-. simpl. now rewrite (IH ds0 r0 eq_refl).
Qed.

Lemma remove_first_ids (rid : str) :
  forall (ds ds' : list Doc.t),
    remove_first rid ds = Some ds' ->
    NoDup (map Doc.id ds) ->
    NoDup (map Doc.id ds') /\ incl (map Doc.id ds') (map Doc.id ds).
Proof.
  induction ds as [|x ds IH]; intros ds'; simpl; [discriminate|].
  destruct (str_eqb (Doc.id x) rid).
  - intros H Hnd. injection H as <-. inversion Hnd. subst.
    split; [assumption|]. now apply incl_tl, incl_refl.
  - destruct (remove_first rid ds) as [ds0|] eqn:Hr; [|discriminate].
    intros H Hnd. injection H as <-. inversion Hnd as [|? ? Hx Hnd']. subst.
    destruct (IH ds0 eq_refl Hnd') as [Hnd0 Hincl]. simpl. split.
    + constructor; [|exact Hnd0]. intros Hin. apply Hx, Hincl, Hin.
    + intros a [<-|Ha]; [now left|right; now apply Hincl].
Qed.

Lemma get_resources_world (w : World) :
  snd (get_resources w) = after_call w.
Proof.
  unfold get_resources, find_all, bind. rewrite driver_call_eq.
  destruct (call_fails w); [reflexivity|].
  rewrite (for_each_pure created_at_from_iso parse_doc ValueError
                         created_at_from_iso_pure).
  destruct (traverse parse_doc _) as [ps|]; [|reflexivity].
  rewrite (for_each_pure Resource_of_doc read ValueError
                         Resource_of_doc_pure).
  destruct (traverse read ps); reflexivity.
Qed.

Lemma update_resource_world (rid : str) (upd : ResourceUpdate.t)
      (w : World) :
  ids (snd (update_resource rid upd w)) = ids w
  /\ uuid4 (snd (update_resource rid upd w)) = uuid4 w
  /\ made (snd (update_resource rid upd w)) = made w.
Proof.
  assert (Hc : ids (after_call w) = ids w
               /\ uuid4 (after_call w) = uuid4 w
               /\ made (after_call w) = made w)
    by (unfold after_call, ids; destruct (outages w); auto).
  unfold update_resource, find_one_and_update, bind.
  rewrite driver_call_eq. destruct (call_fails w); [exact Hc|].
  destruct (update_first rid (Doc.set_is_active (ResourceUpdate.is_active upd))
                         (resources (after_call w)))
    as [[r ds]|] eqn:Hu; [|exact Hc].
  apply update_first_ids in Hu; [|intros x; destruct x; reflexivity].
  assert (Hw : forall A (res : Result A),
             ids (snd (res, set_resources ds (after_call w))) = ids w
             /\ uuid4 (snd (res, set_resources ds (after_call w))) = uuid4 w
             /\ made (snd (res, set_resources ds (after_call w))) = made w).
  { intros A res. unfold ids in *. simpl. rewrite Hu. exact Hc. }
  rewrite created_at_from_iso_pure.
  destruct (parse_doc (Doc.set__id None r)) as [p|]; [|apply Hw].
  rewrite Resource_of_doc_pure. apply Hw.
Qed.

Lemma import_lines_ids_invariant (lines : list str) :
  forall (i : nat) (acc : nat * list str) (w : World),
    ids_invariant w -> ids_invariant (snd (import_lines i lines acc w)).
Proof.
  induction lines as [|line rest IH]; intros i [n e] w Hw; [exact Hw|].
  cbn [import_lines]. unfold bind. rewrite import_line_verdict.
  destruct (line_verdict line) as [| | |url login password];
    try (now apply IH).
  destruct (call_fails w).
  - now apply ids_invariant_after_failed_insert.
  - apply IH. now apply ids_invariant_after_stored.
Qed.

(** X13: the handlers keep this invariant: the uuid source never
    repeats, no two stored documents share an id, and every stored id
    is one the source has already given out.  Create, list, update,
    delete and import each preserve it, whether the store answers or
    not, so it holds after any sequence of requests that starts from a
    collection where it holds, an empty one for instance. *)
Theorem ids_stay_unique (w : World) (input : ResourceCreate.t) (rid : str)
        (upd : ResourceUpdate.t) (contents : bytes) :
  ids_invariant w ->
  ids_invariant (snd (serve (create_resource input) w))
  /\ ids_invariant (snd (serve get_resources w))
  /\ ids_invariant (snd (serve (update_resource rid upd) w))
  /\ ids_invariant (snd (serve (delete_resource rid) w))
  /\ ids_invariant (snd (serve (import_resources contents) w)).
Proof.
  intros Hw. rewrite !snd_serve.
  split; [|split; [|split; [|split]]].
  - rewrite create_resource_any. destruct (call_fails w).
    + now apply ids_invariant_after_failed_insert.
    + now apply ids_invariant_after_stored.
  - rewrite get_resources_world. now apply ids_invariant_after_call.
  - destruct (update_resource_world rid upd w) as (Hi & Hu & Hm).
    apply (ids_invariant_ext w); auto. lia.
  - unfold delete_resource, delete_one, bind. rewrite driver_call_eq.
    pose proof (ids_invariant_after_call w Hw) as Hc.
    destruct (call_fails w); [exact Hc|].
    destruct (remove_first rid (resources (after_call w))) as [ds|] eqn:Hr;
      [|exact Hc].
    destruct Hc as (Hinj & Hnd & Hold).
    destruct (remove_first_ids rid _ ds Hr Hnd) as [Hnd' Hincl].
    repeat split; auto; intros x Hin; apply Hold, Hincl, Hin.
  - unfold import_resources, try_except.
    destruct (decode_utf8 contents) as [text|]; [|exact Hw].
    unfold bind.
    pose proof (import_lines_ids_invariant (split newline (strip text))
                                           1 (0, []) w Hw) as H.
    destruct (import_lines 1 (split newline (strip text)) (0, []) w)
      as [[[n e]|exn] w']; exact H.
Qed.

Lemma counter_world_invariant : ids_invariant counter_world.
Proof.
  unfold ids_invariant, uuid_injective, ids. simpl. repeat split.
  - intros a c H. injection H as H. now apply Nat2N.inj.
  - repeat constructor. intros [].
  - intros rid [<-|[]]. exists 0. split; [lia|reflexivity].
Qed.

Lemma ids_stay_unique_witness :
  ids_invariant
    (snd (serve (create_resource
                   (ResourceCreate.mk (u "http://b.com") (u "user2")
                                      (u "pass2"))) counter_world))
  /\ ids_invariant (snd (serve get_resources counter_world))
  /\ ids_invariant
       (snd (serve (update_resource [0%N] (ResourceUpdate.mk false))
                   counter_world))
  /\ ids_invariant (snd (serve (delete_resource [0%N]) counter_world))
  /\ ids_invariant
       (snd (serve (import_resources scenario_file) counter_world)).
Proof.
  apply (ids_stay_unique counter_world).
  exact counter_world_invariant.
Defined.

(** ** List reads only *)

(** X14: a list request never changes the collection, whatever the store
    does and whatever is stored: it builds no resource and stores no
    document. *)
Theorem list_changes_nothing (w : World) :
  resources (snd (serve get_resources w)) = resources w
  /\ next_oid (snd (serve get_resources w)) = next_oid w
  /\ made (snd (serve get_resources w)) = made w.
Proof.
  rewrite snd_serve, get_resources_world. unfold after_call.
  destruct (outages w); repeat split.
Qed.

(** ** Allowed origins *)

Lemma join_split_ne (sep : char) (s : str) :
  join sep (fst (split_ne sep s) :: snd (split_ne sep s)) = s.
Proof.
  induction s as [|c s IH]; [reflexivity|].
  simpl split_ne. destruct (split_ne sep s) as [h t]. simpl in IH.
  destruct (c =? sep)%N eqn:E.
  - apply N.eqb_eq in E. subst c. cbn [fst snd join].
    cbn [fst snd join] in IH. simpl. now rewrite IH.
  - cbn [fst snd]. destruct t; simpl in *; now rewrite IH.
Qed.

Lemma split_ne_no_sep (sep : char) (s : str) :
  ~ In sep (fst (split_ne sep s))
  /\ Forall (fun p => ~ In sep p) (snd (split_ne sep s)).
Proof.
  induction s as [|c s [IH1 IH2]]; simpl.
  - split; [intros []|constructor].
  - destruct (split_ne sep s) as [h t]. simpl in IH1, IH2.
    destruct (c =? sep)%N eqn:E; simpl.
    + split; [intros []|]. now constructor.
    + split; [|exact IH2]. apply N.eqb_neq in E.
      intros [H|H]; [congruence|contradiction].
Qed.

Lemma split_ne_length (sep : char) (s : str) :
  length (snd (split_ne sep s)) = count sep s.
Proof.
  induction s as [|c s IH]; [reflexivity|].
  rewrite count_cons. simpl split_ne.
  destruct (split_ne sep s) as [h t]. simpl in IH.
  destruct (c =? sep)%N; simpl; now rewrite IH.
Qed.

(** X15: the allowed origins are the value of [CORS_ORIGINS] cut at its
    commas, ["*"] alone when the variable is not set: there is always at
    least one origin, one more than the value has commas, no origin
    holds a comma, and joined by commas they give the value back, so
    nothing of it is trimmed or dropped. *)
Theorem allow_origins_split (cors_origins : option str) :
  allow_origins None = [u "*"]
  /\ length (allow_origins cors_origins)
     = S (count comma (match cors_origins with
                       | Some v => v
                       | None => u "*"
                       end))
  /\ Forall (fun origin => ~ In comma origin) (allow_origins cors_origins)
  /\ join comma (allow_origins cors_origins)
     = match cors_origins with
       | Some v => v
       | None => u "*"
       end.
Proof.
  split; [reflexivity|]. unfold allow_origins, split.
  set (v := match cors_origins with Some v => v | None => u "*" end).
  pose proof (join_split_ne comma v) as HJ.
  pose proof (split_ne_no_sep comma v) as [H1 H2].
  pose proof (split_ne_length comma v) as HL.
  destruct (split_ne comma v) as [h t]. simpl in *.
  repeat split; auto.
Qed.

Example allow_origins_spaces :
  allow_origins (Some (u "http://a.com, http://b.com,"))
  = [u "http://a.com"; u " http://b.com"; u ""].
Proof. reflexivity. Qed.

(* ===================================================================== *)
(** * Documents the service wrote *)
(* ===================================================================== *)

(** What the handlers write as [created_at] reads back as the timestamp
    written. *)
Lemma written_at_timestamp (d : Doc.t) (t : datetime) :
  written_at d t -> stored_timestamp d = Some t.
Proof.
  intros [Hv Hc]. unfold stored_timestamp. rewrite Hc.
  now apply isoformat_round_trip.
Qed.

Lemma written_at_set_is_active (v : bool) (d : Doc.t) (t : datetime) :
  written_at d t -> written_at (Doc.set_is_active v d) t.
Proof. destruct d. exact (fun H => H). Qed.

Lemma written_stored_doc (w : World) (url login password : str) :
  clock_valid w ->
  written_at (stored_doc w url login password) (utcnow w (made w)).
Proof. intros Hc. split; [apply Hc|reflexivity]. Qed.

(** A string that does not start with a digit is no date. *)
Lemma not_a_date (s : str) :
  starts_with_digit s = false -> fromisoformat s = None.
Proof.
  intros H. unfold fromisoformat, parse_isoformat_date.
  destruct (negb (length (firstn 10 s) =? 10)); [reflexivity|].
  destruct (negb (nth 4 (firstn 10 s) 0 =? dash)%N); [reflexivity|].
  destruct (negb (nth 7 (firstn 10 s) 0 =? dash)%N); [reflexivity|].
  destruct s as [|c s]; [reflexivity|].
  simpl in H. cbn [firstn int_of int_digits]. unfold digit_val.
  now rewrite H.
Qed.

Lemma sample_clock_valid (n : nat) : valid_datetime (sample_clock n) = true.
Proof.
  unfold sample_clock, valid_datetime, between.
  cbn [year month day hour minute second microsecond tzinfo].
  pose proof (Nat.mod_upper_bound n 60).
  assert (H1 : (0 <=? Z.of_nat (n mod 60))%Z = true)
    by (apply Z.leb_le; lia).
  assert (H2 : (Z.of_nat (n mod 60) <=? 59)%Z = true)
    by (apply Z.leb_le; lia).
  rewrite H1, H2. reflexivity.
Qed.

(** ** The handlers keep the store theirs *)

Lemma service_world_ext (w w' : World) :
  resources w' = resources w -> utcnow w' = utcnow w ->
  service_world w -> service_world w'.
Proof.
  unfold service_world, service_store, clock_valid.
  intros Hr Hu [Hs Hc]. rewrite Hr, Hu. auto.
Qed.

Lemma service_world_after_call (w : World) :
  service_world w -> service_world (after_call w).
Proof.
  apply service_world_ext; unfold after_call; destruct (outages w); auto.
Qed.

Lemma service_world_set_resources (ds : list Doc.t) (w : World) :
  Forall (fun d => exists t, written_at d t) ds ->
  service_world w -> service_world (set_resources ds w).
Proof. intros Hds [_ Hc]. split; [exact Hds|exact Hc]. Qed.

Lemma service_world_after_stored (w : World) (url login password : str) :
  service_world w -> service_world (after_stored w url login password).
Proof.
  intros [Hs Hc]. apply service_world_after_call. split; [|exact Hc].
  unfold service_store. simpl. apply Forall_app. split; [exact Hs|].
  constructor; [|constructor].
  exists (utcnow w (made w)). now apply written_stored_doc.
Qed.

Lemma service_world_after_failed_insert (w : World) :
  service_world w -> service_world (after_failed_insert w).
Proof.
  intros H. apply service_world_after_call.
  now apply (service_world_ext w).
Qed.

Lemma update_first_Forall (P : Doc.t -> Prop) (rid : str)
      (f : Doc.t -> Doc.t) :
  (forall x, P x -> P (f x)) ->
  forall (ds ds' : list Doc.t) (r : Doc.t),
    Forall P ds -> update_first rid f ds = Some (r, ds') -> Forall P ds'.
Proof.
  intros Hf. induction ds as [|x ds IH]; intros ds' r HP; simpl;
    [discriminate|].
  inversion HP as [|? ? Hx Hds]. subst.
  destruct (str_eqb (Doc.id x) rid).
  - intros H. injection H as _ <-. constructor; auto.
  - destruct (update_first rid f ds) as [[r0 ds0]|] eqn:Hu; [|discriminate].
    intros H. injection H as _ <-. constructor; [exact Hx|].
    now apply (IH ds0 r0).
Qed.

Lemma remove_first_Forall (P : Doc.t -> Prop) (rid : str) :
  forall (ds ds' : list Doc.t),
    Forall P ds -> remove_first rid ds = Some ds' -> Forall P ds'.
Proof.
  induction ds as [|x ds IH]; intros ds' HP; simpl; [discriminate|].
  inversion HP as [|? ? Hx Hds]. subst.
  destruct (str_eqb (Doc.id x) rid).
  - intros H. injection H as <-. exact Hds.
  - destruct (remove_first rid ds) as [ds0|] eqn:Hr; [|discriminate].
    intros H. injection H as <-. constructor; [exact Hx|]. now apply IH.
Qed.

Lemma update_resource_service (rid : str) (upd : ResourceUpdate.t)
      (w : World) :
  service_world w -> service_world (snd (update_resource rid upd w)).
Proof.
  intros Hw. pose proof (service_world_after_call w Hw) as Hc.
  unfold update_resource, find_one_and_update, bind.
  rewrite driver_call_eq. destruct (call_fails w); [exact Hc|].
  destruct (update_first rid (Doc.set_is_active (ResourceUpdate.is_active upd))
                         (resources (after_call w)))
    as [[r ds]|] eqn:Hu; [|exact Hc].
  assert (Hds : service_world (set_resources ds (after_call w))).
  { apply service_world_set_resources; [|exact Hc].
    refine (update_first_Forall _ rid _ _ (resources (after_call w)) ds r
                                (proj1 Hc) Hu).
    intros x [t Hx]. exists t. now apply written_at_set_is_active. }
  rewrite created_at_from_iso_pure.
  destruct (parse_doc (Doc.set__id None r)) as [p|]; [|exact Hds].
  rewrite Resource_of_doc_pure. destruct (read p); exact Hds.
Qed.

Lemma delete_resource_service (rid : str) (w : World) :
  service_world w -> service_world (snd (delete_resource rid w)).
Proof.
  intros Hw. pose proof (service_world_after_call w Hw) as Hc.
  unfold delete_resource, delete_one, bind. rewrite driver_call_eq.
  destruct (call_fails w); [exact Hc|].
  destruct (remove_first rid (resources (after_call w))) as [ds|] eqn:Hr;
    [|exact Hc].
  apply service_world_set_resources; [|exact Hc].
  exact (remove_first_Forall _ rid (resources (after_call w)) ds
                             (proj1 Hc) Hr).
Qed.

Lemma import_lines_service (lines : list str) :
  forall (i : nat) (acc : nat * list str) (w : World),
    service_world w -> service_world (snd (import_lines i lines acc w)).
Proof.
  induction lines as [|line rest IH]; intros i [n e] w Hw; [exact Hw|].
  cbn [import_lines]. unfold bind. rewrite import_line_verdict.
  destruct (line_verdict line) as [| | |url login password];
    try (now apply IH).
  destruct (call_fails w).
  - now apply service_world_after_failed_insert.
  - apply IH. now apply service_world_after_stored.
Qed.

Lemma import_resources_service (contents : bytes) (w : World) :
  service_world w -> service_world (snd (import_resources contents w)).
Proof.
  intros Hw. unfold import_resources, try_except.
  destruct (decode_utf8 contents) as [text|]; [|exact Hw].
  unfold bind.
  pose proof (import_lines_service (split newline (strip text))
                                   1 (0, []) w Hw) as H.
  destruct (import_lines 1 (split newline (strip text)) (0, []) w)
    as [[[n e]|exn] w']; exact H.
Qed.

(** In every world the service can be in, each stored document holds a
    [created_at] the handlers wrote. *)
Lemma reachable_service_world (w : World) :
  reachable w -> service_world w.
Proof.
  induction 1 as [w Hr Hc|w input _ IH|w _ IH|w rid upd _ IH|w rid _ IH
                  |w contents _ IH]; try rewrite snd_serve.
  - split; [|exact Hc]. unfold service_store. rewrite Hr. constructor.
  - rewrite create_resource_any. destruct (call_fails w).
    + now apply service_world_after_failed_insert.
    + now apply service_world_after_stored.
  - rewrite get_resources_world. now apply service_world_after_call.
  - now apply update_resource_service.
  - now apply delete_resource_service.
  - now apply import_resources_service.
Qed.

(** ** Update, on documents the service wrote *)

(** Setting the flag to false twice, for a document whose timestamp
    reads back. *)
Lemma update_twice_same (rid : str) (w : World) (d : Doc.t)
      (t : datetime) :
  healthy w ->
  lookup rid (resources w) = Some d ->
  stored_timestamp d = Some t ->
  exists w1,
    serve (update_resource rid (ResourceUpdate.mk false)) w
    = (Reply (Resource.mk (Doc.id d) (Doc.url d) (Doc.login d)
                          (Doc.password d) false t), w1)
    /\ lookup rid (resources w1) = Some (Doc.set_is_active false d)
    /\ serve (update_resource rid (ResourceUpdate.mk false)) w1
       = (Reply (Resource.mk (Doc.id d) (Doc.url d) (Doc.login d)
                             (Doc.password d) false t), w1).
Proof.
  intros Hw Hd Ht.
  destruct (update_first_found rid (Doc.set_is_active false)
                               (resources w) d Hd) as (ds & Hu & _).
  assert (Ht' : stored_timestamp (Doc.set_is_active false d) = Some t)
    by (destruct d; exact Ht).
  assert (Hu' : update_first rid (Doc.set_is_active false) ds
                = Some (Doc.set_is_active false d, ds)).
  { apply (update_first_idem rid (Doc.set_is_active false))
      with (ds := resources w); [reflexivity|reflexivity|exact Hu]. }
  exists (set_resources ds w). split; [|split].
  - rewrite (update_resource_found rid false w _ ds t Hw Hu Ht').
    destruct d; reflexivity.
  - exact (update_first_fixed_lookup rid _ ds _ Hu').
  - rewrite (update_resource_found rid false (set_resources ds w) _ ds t
                                   Hw Hu' Ht').
    destruct d; destruct w; reflexivity.
Qed.

Lemma lookup_in (rid : str) (ds : list Doc.t) (d : Doc.t) :
  lookup rid ds = Some d -> In d ds.
Proof.
  intros H. destruct (lookup_split rid ds d H) as (pre & post & -> & _).
  apply in_or_app. right. now left.
Qed.

(** C8: in every world the service can be in, with a store that
    answers, setting [is_active] to false on an id the store holds
    replies with the stored document of that id, its fields as stored,
    its timestamp the one written at creation, and [is_active = false];
    doing it again leaves the world as the first call left it and
    replies the same. *)
Theorem set_inactive_idempotent (rid : str) (w : World) :
  reachable w ->
  healthy w ->
  In rid (ids w) ->
  exists d t w1,
    lookup rid (resources w) = Some d
    /\ written_at d t
    /\ serve (update_resource rid (ResourceUpdate.mk false)) w
       = (Reply (Resource.mk (Doc.id d) (Doc.url d) (Doc.login d)
                             (Doc.password d) false t), w1)
    /\ lookup rid (resources w1) = Some (Doc.set_is_active false d)
    /\ serve (update_resource rid (ResourceUpdate.mk false)) w1
       = (Reply (Resource.mk (Doc.id d) (Doc.url d) (Doc.login d)
                             (Doc.password d) false t), w1).
Proof.
  intros Hreach Hw Hin.
  destruct (lookup_present rid (resources w) Hin) as [d Hd].
  destruct (reachable_service_world w Hreach) as [Hs _].
  unfold service_store in Hs. rewrite Forall_forall in Hs.
  destruct (Hs d (lookup_in rid _ d Hd)) as [t Ht].
  destruct (update_twice_same rid w d t Hw Hd (written_at_timestamp d t Ht))
    as (w1 & H1 & H2 & H3).
  exists d, t, w1. auto.
Qed.

Lemma set_inactive_idempotent_witness :
  exists d t w1,
    lookup (u "id-0")
           (resources
              (snd (serve (create_resource
                             (ResourceCreate.mk (u "http://a.com")
                                                (u "user1") (u "pass1")))
                          empty_world)))
    = Some d
    /\ written_at d t
    /\ serve (update_resource (u "id-0") (ResourceUpdate.mk false))
             (snd (serve (create_resource
                            (ResourceCreate.mk (u "http://a.com")
                                               (u "user1") (u "pass1")))
                         empty_world))
       = (Reply (Resource.mk (Doc.id d) (Doc.url d) (Doc.login d)
                             (Doc.password d) false t), w1)
    /\ lookup (u "id-0") (resources w1) = Some (Doc.set_is_active false d)
    /\ serve (update_resource (u "id-0") (ResourceUpdate.mk false)) w1
       = (Reply (Resource.mk (Doc.id d) (Doc.url d) (Doc.login d)
                             (Doc.password d) false t), w1).
Proof.
  apply (set_inactive_idempotent
           (u "id-0")
           (snd (serve (create_resource
                          (ResourceCreate.mk (u "http://a.com") (u "user1")
                                             (u "pass1")))
                       empty_world))).
  - apply reach_create, reach_start; [reflexivity|].
    exact sample_clock_valid.
  - reflexivity.
  - vm_compute. left. reflexivity.
Defined.

(** X2: with a store that answers, an update of a stored id, for a
    document whose [created_at] the service wrote, rewrites the flag of
    the first document carrying that id, in place, and nothing else: the
    documents before and after it are kept as they are, and the reply is
    that document with the new flag. *)
Theorem update_rewrites_one_flag (rid : str) (v : bool) (w : World)
        (d : Doc.t) (t : datetime) :
  healthy w ->
  lookup rid (resources w) = Some d ->
  written_at d t ->
  exists pre post,
    resources w = pre ++ d :: post
    /\ ~ In rid (map Doc.id pre)
    /\ serve (update_resource rid (ResourceUpdate.mk v)) w
       = (Reply (shown (Doc.set_is_active v d) t),
          set_resources (pre ++ Doc.set_is_active v d :: post) w).
Proof.
  intros Hw Hd Ht.
  destruct (lookup_split rid (resources w) d Hd)
    as (pre & post & Hs & Hpre & _ & Hu & _).
  exists pre, post. repeat split; auto.
  apply update_resource_found; [exact Hw|apply Hu|].
  apply written_at_timestamp. now apply written_at_set_is_active.
Qed.

Lemma update_rewrites_one_flag_witness :
  exists pre post,
    resources two_docs_world
    = pre ++ Doc.mk (Some 2%N) (u "id-1") (u "http://b.com") (u "user2")
                    (u "pass2") false
                    (AsStr (u "2024-01-01T12:00:01+00:00")) :: post
    /\ ~ In (u "id-1") (map Doc.id pre)
    /\ serve (update_resource (u "id-1") (ResourceUpdate.mk true))
             two_docs_world
       = (Reply (shown
                   (Doc.set_is_active true
                      (Doc.mk (Some 2%N) (u "id-1") (u "http://b.com")
                              (u "user2") (u "pass2") false
                              (AsStr (u "2024-01-01T12:00:01+00:00"))))
                   (mkDatetime 2024 1 1 12 0 1 0 (Some 0%Z))),
          set_resources
            (pre ++ Doc.set_is_active true
                      (Doc.mk (Some 2%N) (u "id-1") (u "http://b.com")
                              (u "user2") (u "pass2") false
                              (AsStr (u "2024-01-01T12:00:01+00:00")))
                 :: post)
            two_docs_world).
Proof.
  apply (update_rewrites_one_flag
           (u "id-1") true two_docs_world
           (Doc.mk (Some 2%N) (u "id-1") (u "http://b.com") (u "user2")
                   (u "pass2") false
                   (AsStr (u "2024-01-01T12:00:01+00:00")))
           (mkDatetime 2024 1 1 12 0 1 0 (Some 0%Z)));
    [reflexivity|reflexivity|split; reflexivity].
Defined.

(** X3: the update is written before the reply is built.  With a store
    that answers, an update of a stored id changes the flag in the
    collection whatever the document's [created_at] holds; when that is
    a string that does not start with a digit, hence no date, the
    handler answers 500 with the [ValueError], and the flag has been
    changed all the same. *)
Theorem update_unreadable_still_written (rid : str) (v : bool) (w : World)
        (d : Doc.t) :
  healthy w ->
  lookup rid (resources w) = Some d ->
  exists pre post,
    resources w = pre ++ d :: post
    /\ ~ In rid (map Doc.id pre)
    /\ resources (snd (serve (update_resource rid (ResourceUpdate.mk v)) w))
       = pre ++ Doc.set_is_active v d :: post
    /\ forall s,
        Doc.created_at d = AsStr s ->
        starts_with_digit s = false ->
        fst (serve (update_resource rid (ResourceUpdate.mk v)) w)
        = server_error ValueError.
Proof.
  intros Hw Hd.
  destruct (lookup_split rid (resources w) d Hd)
    as (pre & post & Hs & Hpre & _ & Hu & _).
  exists pre, post. split; [exact Hs|]. split; [exact Hpre|]. split.
  - rewrite snd_serve.
    unfold update_resource, find_one_and_update, bind.
    rewrite (driver_call_healthy w Hw). simpl. rewrite Hu.
    rewrite created_at_from_iso_pure.
    destruct (parse_doc (Doc.set__id None (Doc.set_is_active v d)))
      as [p|]; [|reflexivity].
    rewrite Resource_of_doc_pure. destruct (read p); reflexivity.
  - intros s Hc Hn.
    unfold serve, update_resource, find_one_and_update, bind.
    rewrite (driver_call_healthy w Hw). simpl. rewrite Hu.
    rewrite created_at_from_iso_pure. unfold parse_doc.
    destruct d as [oid i0 url login password act ts]. simpl in Hc |- *.
    rewrite Hc, (not_a_date s Hn). reflexivity.
Qed.

Lemma update_unreadable_still_written_witness :
  exists pre post,
    resources
      (set_resources
         [Doc.mk (Some 1%N) (u "id-0") (u "http://a.com") (u "user1")
                 (u "pass1") true (AsStr (u "yesterday"))]
         empty_world)
    = pre ++ Doc.mk (Some 1%N) (u "id-0") (u "http://a.com") (u "user1")
                    (u "pass1") true (AsStr (u "yesterday")) :: post
    /\ ~ In (u "id-0") (map Doc.id pre)
    /\ resources
         (snd (serve (update_resource (u "id-0") (ResourceUpdate.mk false))
                     (set_resources
                        [Doc.mk (Some 1%N) (u "id-0") (u "http://a.com")
                                (u "user1") (u "pass1") true
                                (AsStr (u "yesterday"))]
                        empty_world)))
       = pre ++ Doc.set_is_active false
                  (Doc.mk (Some 1%N) (u "id-0") (u "http://a.com")
                          (u "user1") (u "pass1") true
                          (AsStr (u "yesterday"))) :: post
    /\ forall s,
        Doc.created_at
          (Doc.mk (Some 1%N) (u "id-0") (u "http://a.com") (u "user1")
                  (u "pass1") true (AsStr (u "yesterday")))
        = AsStr s ->
        starts_with_digit s = false ->
        fst (serve (update_resource (u "id-0") (ResourceUpdate.mk false))
                   (set_resources
                      [Doc.mk (Some 1%N) (u "id-0") (u "http://a.com")
                              (u "user1") (u "pass1") true
                              (AsStr (u "yesterday"))]
                      empty_world))
        = server_error ValueError.
Proof.
  apply (update_unreadable_still_written
           (u "id-0") false
           (set_resources
              [Doc.mk (Some 1%N) (u "id-0") (u "http://a.com") (u "user1")
                      (u "pass1") true (AsStr (u "yesterday"))]
              empty_world)
           (Doc.mk (Some 1%N) (u "id-0") (u "http://a.com") (u "user1")
                   (u "pass1") true (AsStr (u "yesterday"))));
    reflexivity.
Defined.

(** ** List, on documents the service wrote *)

Lemma traverse_read_written (ds : list Doc.t) :
  Forall (fun d => exists t, written_at d t) ds ->
  exists rs,
    traverse read ds = Some rs
    /\ Forall2 (fun d r => exists t, written_at d t /\ r = shown d t) ds rs.
Proof.
  induction 1 as [|d ds [t Hd] Hds (rs & Hrs & HF)].
  - exists []. split; [reflexivity|constructor].
  - exists (shown d t :: rs). cbn [traverse]. unfold read at 1.
    rewrite (written_at_timestamp d t Hd), Hrs. split; [reflexivity|].
    constructor; [eauto|exact HF].
Qed.

(** X6: with a store that answers, when the first 1000 stored documents
    hold a [created_at] the service wrote, the list handler replies with
    these documents, in their order, each with its fields and the
    timestamp written, and leaves the world as it was.  Documents past
    the thousandth are not read at all. *)
Theorem list_shows_first_thousand (w : World) :
  healthy w ->
  Forall (fun d => exists t, written_at d t) (firstn 1000 (resources w)) ->
  exists rs,
    serve get_resources w = (Reply rs, w)
    /\ length rs = Nat.min 1000 (length (resources w))
    /\ Forall2 (fun d r => exists t, written_at d t /\ r = shown d t)
               (firstn 1000 (resources w)) rs.
Proof.
  intros Hw Hr. destruct (traverse_read_written _ Hr) as (rs & Hrs & HF).
  exists rs. rewrite (get_resources_eq w Hw), Hrs.
  repeat split; auto.
  rewrite <- (Forall2_length HF). apply length_firstn.
Qed.

Lemma two_docs_written :
  Forall (fun d => exists t, written_at d t) (resources two_docs_world).
Proof.
  repeat constructor.
  - exists (mkDatetime 2024 1 1 12 0 0 250 (Some 0%Z)). split; reflexivity.
  - exists (mkDatetime 2024 1 1 12 0 1 0 (Some 0%Z)). split; reflexivity.
Qed.

Lemma list_shows_first_thousand_witness :
  exists rs,
    serve get_resources two_docs_world = (Reply rs, two_docs_world)
    /\ length rs = Nat.min 1000 (length (resources two_docs_world))
    /\ Forall2 (fun d r => exists t, written_at d t /\ r = shown d t)
               (firstn 1000 (resources two_docs_world)) rs.
Proof.
  apply (list_shows_first_thousand two_docs_world).
  - reflexivity.
  - exact two_docs_written.
Defined.

(** X7: one document among the first 1000 whose [created_at] is a string
    that does not start with a digit, hence no date, makes the whole
    list fail: the answer is a 500 with the [ValueError], and no
    resource is returned. *)
Theorem list_fails_on_unreadable (w : World) :
  healthy w ->
  Exists (fun d => exists s, Doc.created_at d = AsStr s
                             /\ starts_with_digit s = false)
         (firstn 1000 (resources w)) ->
  serve get_resources w = (server_error ValueError, w).
Proof.
  intros Hw He. rewrite (get_resources_eq w Hw).
  rewrite traverse_read_none; [reflexivity|].
  apply Exists_exists in He. destruct He as (d & Hin & s & Hc & Hn).
  apply Exists_exists. exists d. split; [exact Hin|].
  unfold stored_timestamp. rewrite Hc. now apply not_a_date.
Qed.

Lemma list_fails_on_unreadable_witness :
  serve get_resources
        (set_resources
           (resources two_docs_world
            ++ [Doc.mk (Some 3%N) (u "id-2") (u "http://c.com") (u "user3")
                       (u "pass3") true (AsStr (u "yesterday"))])
           two_docs_world)
  = (server_error ValueError,
     set_resources
       (resources two_docs_world
        ++ [Doc.mk (Some 3%N) (u "id-2") (u "http://c.com") (u "user3")
                   (u "pass3") true (AsStr (u "yesterday"))])
       two_docs_world).
Proof.
  apply list_fails_on_unreadable.
  - reflexivity.
  - vm_compute. apply Exists_cons_tl, Exists_cons_tl, Exists_cons_hd.
    eexists. split; reflexivity.
Defined.

(** X8: with a store that answers and a valid clock, when the first 1000
    stored documents hold a [created_at] the service wrote, a created
    resource is stored with its fields as given, and a list that follows
    shows what a list showed before with the new resource at the end,
    as long as fewer than 1000 documents were stored; from 1000 on the
    new resource is stored but not listed. *)
Theorem create_then_list_shows (input : ResourceCreate.t) (w : World) :
  healthy w ->
  valid_datetime (utcnow w (made w)) = true ->
  Forall (fun d => exists t, written_at d t) (firstn 1000 (resources w)) ->
  exists old,
    serve get_resources w = (Reply old, w)
    /\ serve (create_resource input ;;; get_resources) w
       = (Reply (if length (resources w) <? 1000
                 then old ++ [Resource.mk (uuid4 w (made w))
                                          (ResourceCreate.url input)
                                          (ResourceCreate.login input)
                                          (ResourceCreate.password input)
                                          true (utcnow w (made w))]
                 else old),
          after_insert w (ResourceCreate.url input)
                       (ResourceCreate.login input)
                       (ResourceCreate.password input)).
Proof.
  intros Hw Hv Hr.
  destruct (traverse_read_written _ Hr) as (old & Hrs & _).
  exists old. split; [now rewrite (get_resources_eq w Hw), Hrs|].
  unfold serve, bind. rewrite (create_resource_run input w Hw).
  rewrite get_resources_run by (now apply healthy_after_insert).
  cbn [resources after_insert set_next_oid set_resources set_made].
  rewrite firstn_snoc.
  destruct (length (resources w) <? 1000) eqn:Hlt.
  - apply Nat.ltb_lt in Hlt.
    rewrite firstn_all2 in Hrs by lia.
    rewrite traverse_app, Hrs. cbn [traverse]. unfold read at 1.
    rewrite (stored_doc_timestamp w _ _ _ Hv). reflexivity.
  - rewrite Hrs. reflexivity.
Qed.

Lemma create_then_list_shows_witness :
  exists old,
    serve get_resources two_docs_world = (Reply old, two_docs_world)
    /\ serve (create_resource
                (ResourceCreate.mk (u " http://c.com") (u "user3 ")
                                   (u "p:3")) ;;;
              get_resources) two_docs_world
       = (Reply (if length (resources two_docs_world) <? 1000
                 then old
                      ++ [Resource.mk
                            (uuid4 two_docs_world (made two_docs_world))
                            (u " http://c.com") (u "user3 ") (u "p:3") true
                            (utcnow two_docs_world (made two_docs_world))]
                 else old),
          after_insert two_docs_world (u " http://c.com") (u "user3 ")
                       (u "p:3")).
Proof.
  apply (create_then_list_shows
           (ResourceCreate.mk (u " http://c.com") (u "user3 ") (u "p:3"))
           two_docs_world).
  - reflexivity.
  - reflexivity.
  - exact two_docs_written.
Defined.

(** ** The import's failure modes *)





